(** * nir-parser: the two-endmember mixture resolver of [src/base/predict.py]

    A shallow embedding of [_calculate_ssr], [_find_optimal_mixture] and
    [main], and the properties the specification states about them; and of
    [_get_files] and [generate_spectra] of [src/base/main.py], which cut the
    input spectra into the peak windows.

    Numbers.  A finite float is modelled by an exact rational kept in reduced
    form; rounding and overflow are not modelled.  The non-finite values of
    NumPy's float64 (inf, -inf, nan) are kept, with the IEEE rules for them,
    because the source divides by zero on purpose and discards the quotient
    with [np.where].  Signed zeros are not modelled: [x / 0] is [+inf] for
    [x > 0] and [-inf] for [x < 0].

    Tables.  A pandas Series is a list of (label, value) pairs and a
    DataFrame is a list of column labels with a list of rows.  Column labels
    are unique, as [pd.read_excel] makes them.  Binary Series operations
    align their operands on labels, as pandas does.

    SciPy's [minimize_scalar] is an external function: it is a parameter of
    every definition that calls it. *)

From Stdlib Require Import ZArith QArith Qabs Qreduction Qminmax Lqa Lia.
From Stdlib Require Import List Ascii String Bool Arith Sorted Permutation.
From Stdlib Require OrderedTypeEx.
Import ListNotations.

Local Open Scope Q_scope.
Local Open Scope list_scope.

#[local] Arguments Qred : simpl never.
#[local] Arguments Qplus : simpl never.
#[local] Arguments Qminus : simpl never.
#[local] Arguments Qmult : simpl never.
#[local] Arguments Qdiv : simpl never.
#[local] Arguments Qabs : simpl never.
#[local] Arguments Qle_bool : simpl never.
#[local] Arguments Qeq_bool : simpl never.

(** [length] is the length of a list throughout. *)
Local Abbreviation length := List.length (only parsing).

(* ------------------------------------------------------------------ *)
(** ** Exceptions *)

Inductive Exception : Type :=
| TypeError
| IndexError
| ValueError.

Inductive exc (A : Type) : Type :=
| Ok (a : A)
| Raise (e : Exception).

Arguments Ok {A} a.
Arguments Raise {A} e.

Definition bind {A B : Type} (m : exc A) (k : A -> exc B) : exc B :=
  match m with
  | Ok a => k a
  | Raise e => Raise e
  end.

Notation "x <- m ;; k" := (bind m (fun x => k))
  (at level 61, m at next level, right associativity).

Fixpoint mapM {A B : Type} (f : A -> exc B) (l : list A) : exc (list B) :=
  match l with
  | [] => Ok []
  | a :: l' => b <- f a ;; bs <- mapM f l' ;; Ok (b :: bs)
  end.

(* ------------------------------------------------------------------ *)
(** ** Numbers *)

Inductive num : Type :=
| Fin (q : Q)
| PInf
| NInf
| NaN.

Definition fin (q : Q) : num := Fin (Qred q).

(** The infinity with the sign a comparison with zero gives; [0 * inf] and
    [0 / 0] are nan. *)
Definition inf_of (c : comparison) : num :=
  match c with
  | Gt => PInf
  | Lt => NInf
  | Eq => NaN
  end.

Definition nadd (x y : num) : num :=
  match x, y with
  | NaN, _ => NaN
  | _, NaN => NaN
  | Fin a, Fin b => fin (a + b)
  | PInf, NInf => NaN
  | NInf, PInf => NaN
  | PInf, _ => PInf
  | _, PInf => PInf
  | NInf, _ => NInf
  | _, NInf => NInf
  end.

Definition nsub (x y : num) : num :=
  match x, y with
  | NaN, _ => NaN
  | _, NaN => NaN
  | Fin a, Fin b => fin (a - b)
  | PInf, PInf => NaN
  | NInf, NInf => NaN
  | PInf, _ => PInf
  | _, NInf => PInf
  | NInf, _ => NInf
  | _, PInf => NInf
  end.

Definition nmul (x y : num) : num :=
  match x, y with
  | NaN, _ => NaN
  | _, NaN => NaN
  | Fin a, Fin b => fin (a * b)
  | Fin a, PInf => inf_of (a ?= 0)
  | PInf, Fin a => inf_of (a ?= 0)
  | Fin a, NInf => inf_of (0 ?= a)
  | NInf, Fin a => inf_of (0 ?= a)
  | PInf, PInf => PInf
  | NInf, NInf => PInf
  | PInf, NInf => NInf
  | NInf, PInf => NInf
  end.

Definition ndiv (x y : num) : num :=
  match x, y with
  | NaN, _ => NaN
  | _, NaN => NaN
  | Fin a, Fin b => if Qeq_bool b 0 then inf_of (a ?= 0) else fin (a / b)
  | Fin _, _ => Fin 0
  | PInf, Fin b => match b ?= 0 with Lt => NInf | _ => PInf end
  | NInf, Fin b => match b ?= 0 with Lt => PInf | _ => NInf end
  | _, _ => NaN
  end.

Definition nneg (x : num) : num :=
  match x with
  | Fin a => fin (- a)
  | PInf => NInf
  | NInf => PInf
  | NaN => NaN
  end.

Definition nabs (x : num) : num :=
  match x with
  | Fin a => fin (Qabs a)
  | PInf => PInf
  | NInf => PInf
  | NaN => NaN
  end.

(** [x > y]; every comparison with nan is false. *)
Definition ngt (x y : num) : bool :=
  match x, y with
  | NaN, _ => false
  | _, NaN => false
  | Fin a, Fin b => negb (Qle_bool a b)
  | PInf, PInf => false
  | PInf, _ => true
  | NInf, _ => false
  | Fin _, NInf => true
  | Fin _, PInf => false
  end.

Definition np_maximum (x y : num) : num :=
  match x, y with
  | NaN, _ => NaN
  | _, NaN => NaN
  | _, _ => if ngt y x then y else x
  end.

Definition np_minimum (x y : num) : num :=
  match x, y with
  | NaN, _ => NaN
  | _, NaN => NaN
  | _, _ => if ngt x y then y else x
  end.

(** [np.clip(a, a_min, a_max)] is [minimum(maximum(a, a_min), a_max)]. *)
Definition np_clip (a a_min a_max : num) : num :=
  np_minimum (np_maximum a a_min) a_max.

(* ------------------------------------------------------------------ *)
(** ** Cells, Series and DataFrames *)

Definition label : Type := string.

(** A cell of a sheet: a number or a text.  An empty cell is [CNum NaN]. *)
Inductive cell : Type :=
| CNum (x : num)
| CStr (s : string).

Definition Series : Type := list (label * cell).

Record DataFrame : Type := mkDataFrame {
  columns : list label;
  rows : list (list cell)
}.

Definition index (s : Series) : list label := map fst s.
Definition values (s : Series) : list cell := map snd s.

(** [len(df)] *)
Definition len (df : DataFrame) : nat := length (rows df).

(** [s.iloc[k:]] *)
Definition iloc_from (s : Series) (k : nat) : Series := skipn k s.

(** [df.iloc[i]]: row [i] as a Series labelled by the columns. *)
Definition iloc_row (df : DataFrame) (i : nat) : exc Series :=
  match nth_error (rows df) i with
  | Some r => Ok (combine (columns df) r)
  | None => Raise IndexError
  end.

(** [df.iloc[i, k:]] *)
Definition iloc_row_from (df : DataFrame) (i k : nat) : exc Series :=
  r <- iloc_row df i ;; Ok (iloc_from r k).

(** [df.iterrows()]: the rows with their index label; [read_excel] gives
    the table a [RangeIndex], so the label of a row is its position. *)
Definition iterrows (df : DataFrame) : list (nat * Series) :=
  combine (seq 0 (length (rows df))) (map (combine (columns df)) (rows df)).

(** *** Alignment of two Series on their labels *)

Fixpoint index_equals (a b : list label) : bool :=
  match a, b with
  | [], [] => true
  | x :: a', y :: b' => String.eqb x y && index_equals a' b'
  | _, _ => false
  end.

Fixpoint insert_label (l : label) (ls : list label) : list label :=
  match ls with
  | [] => [l]
  | x :: ls' =>
      if String.eqb l x then ls
      else if String.ltb l x then l :: ls
      else x :: insert_label l ls'
  end.

(** [Index.union]: the sorted union of two indexes that differ. *)
Definition index_union (a b : list label) : list label :=
  fold_right insert_label [] (a ++ b).

Fixpoint lookup (l : label) (s : Series) : option cell :=
  match s with
  | [] => None
  | (k, v) :: s' => if String.eqb l k then Some v else lookup l s'
  end.

(** [Series.reindex]: a label the Series lacks gets nan. *)
Definition reindex (s : Series) (idx : list label) : Series :=
  map (fun l => (l, match lookup l s with
                    | Some v => v
                    | None => CNum NaN
                    end)) idx.

(** [Series.align(other, join="outer")]: nothing to do when the indexes are
    equal, otherwise both operands are reindexed on the union. *)
Definition align (s1 s2 : Series) : Series * Series :=
  if index_equals (index s1) (index s2) then (s1, s2)
  else
    let idx := index_union (index s1) (index s2) in
    (reindex s1 idx, reindex s2 idx).

(** *** Elementwise arithmetic *)

(** One pair of an array-with-array operation.  pandas evaluates the whole
    array first and, on a TypeError in an object array, again on the pairs
    where both sides are not null, the others getting nan: a text against
    nan gives nan, a text against a number raises. *)
Definition cell_arith (op : num -> num -> num)
    (str_op : option (string -> string -> string)) (x y : cell) : exc cell :=
  match x, y with
  | CNum a, CNum b => Ok (CNum (op a b))
  | CStr s, CStr t =>
      match str_op with
      | Some f => Ok (CStr (f s t))
      | None => Raise TypeError
      end
  | CNum a, CStr _ | CStr _, CNum a =>
      match a with
      | NaN => Ok (CNum NaN)
      | _ => Raise TypeError
      end
  end.

(** One element of an array-with-scalar operation with a float scalar. *)
Definition cell_arith_scalar (op : num -> num -> num) (x : cell) (c : num)
  : exc cell :=
  match x with
  | CNum a => Ok (CNum (op a c))
  | CStr _ => Raise TypeError
  end.

Fixpoint zip_arith (f : cell -> cell -> exc cell) (s1 s2 : Series)
  : exc Series :=
  match s1, s2 with
  | (l, x) :: s1', (_, y) :: s2' =>
      v <- f x y ;; r <- zip_arith f s1' s2' ;; Ok ((l, v) :: r)
  | _, _ => Ok []
  end.

Definition series_binop (op : num -> num -> num)
    (str_op : option (string -> string -> string)) (s1 s2 : Series)
  : exc Series :=
  let '(l, r) := align s1 s2 in zip_arith (cell_arith op str_op) l r.

Definition series_scalar_op (op : num -> num -> num) (s : Series) (c : num)
  : exc Series :=
  mapM (fun '(l, x) => v <- cell_arith_scalar op x c ;; Ok (l, v)) s.

(** [s1 + s2], [s1 - s2], [s1 / s2], [s * c], [s / c] *)
Definition series_add : Series -> Series -> exc Series :=
  series_binop nadd (Some String.append).
Definition series_sub : Series -> Series -> exc Series :=
  series_binop nsub None.
Definition series_div : Series -> Series -> exc Series :=
  series_binop ndiv None.
Definition series_mul_scalar : Series -> num -> exc Series :=
  series_scalar_op nmul.
Definition series_div_scalar : Series -> num -> exc Series :=
  series_scalar_op ndiv.

(** [np.abs(s)] *)
Definition np_abs (s : Series) : exc Series :=
  mapM (fun '(l, x) =>
          match x with
          | CNum a => Ok (l, CNum (nabs a))
          | CStr _ => Raise TypeError
          end) s.

(** [s > c]: the boolean values, in the order of [s]. *)
Definition series_gt_scalar (s : Series) (c : num) : exc (list bool) :=
  mapM (fun '(_, x) =>
          match x with
          | CNum a => Ok (ngt a c)
          | CStr _ => Raise TypeError
          end) s.

(** [np.where(cond, x, y)] with a scalar [y]: by position, on the values. *)
Fixpoint np_where (cond : list bool) (x : list cell) (y : num)
  : exc (list cell) :=
  match cond, x with
  | [], [] => Ok []
  | c :: cond', v :: x' =>
      r <- np_where cond' x' y ;; Ok ((if c then v else CNum y) :: r)
  | _, _ => Raise ValueError
  end.

(** [np.square(a)] *)
Definition np_square (a : list cell) : exc (list cell) :=
  mapM (fun x =>
          match x with
          | CNum v => Ok (CNum (nmul v v))
          | CStr _ => Raise TypeError
          end) a.

(** [np.sum(a)] *)
Fixpoint np_sum_from (acc : num) (a : list cell) : exc num :=
  match a with
  | [] => Ok acc
  | CNum v :: a' => np_sum_from (nadd acc v) a'
  | CStr _ :: _ => Raise TypeError
  end.

Definition np_sum (a : list cell) : exc num := np_sum_from (Fin 0) a.

(* ------------------------------------------------------------------ *)
(** ** [_calculate_ssr] *)

Definition epsilon : num := Fin (1 # 1000000000).

(** Lines 43 to 51 of the source: the relative residuals of the predicted
    values against the data, squared and summed. *)
Definition sum_squared_residuals (data_params predicted_params : Series)
  : exc num :=
  s <- series_add data_params predicted_params ;;
  denominator <- series_div_scalar s (Fin 2) ;;
  absolute <- np_abs denominator ;;
  cond <- series_gt_scalar absolute epsilon ;;
  difference <- series_sub predicted_params data_params ;;
  quotient <- series_div difference denominator ;;
  residuals <- np_where cond (values quotient) (Fin 0) ;;
  squared_residuals <- np_square residuals ;;
  np_sum squared_residuals.

Definition _calculate_ssr (a1 : num) (data : Series)
    (endmembers_df : DataFrame) : exc num :=
  let a1 := np_clip a1 (Fin 0) (Fin 1) in
  let a2 := nsub (Fin 1) a1 in
  endmember1_params <- iloc_row_from endmembers_df 0 1 ;;
  endmember2_params <- iloc_row_from endmembers_df 1 1 ;;
  let data_params := iloc_from data 1 in
  m1 <- series_mul_scalar endmember1_params a1 ;;
  m2 <- series_mul_scalar endmember2_params a2 ;;
  predicted_params <- series_add m1 m2 ;;
  sum_squared_residuals data_params predicted_params.

(* ------------------------------------------------------------------ *)
(** ** [_find_optimal_mixture] and [main] *)

(** A Python dict with text keys: the keys are unique and keep the order
    in which they were first set. *)
Definition Dict : Type := list (string * cell).

Fixpoint dict_set (k : string) (v : cell) (d : Dict) : Dict :=
  match d with
  | [] => [(k, v)]
  | (k', v') :: d' =>
      if String.eqb k k' then (k, v) :: d' else (k', v') :: dict_set k v d'
  end.

Definition dict_of_items (items : list (string * cell)) : Dict :=
  fold_left (fun d kv => dict_set (fst kv) (snd kv) d) items [].

(** [s.to_dict()] *)
Definition to_dict (s : Series) : Dict := dict_of_items s.

(** [s.iloc[i]] *)
Definition iloc (s : Series) (i : nat) : exc cell :=
  match nth_error s i with
  | Some (_, v) => Ok v
  | None => Raise IndexError
  end.

(** What [minimize_scalar] returns: [result.x] and [result.fun]. *)
Record OptimizeResult : Type := mkOptimizeResult {
  res_x : num;
  res_fun : num
}.

(** The files [main] reads, in memory: the endmember sheet and the sheets
    of [results.xlsx]. *)
Record Files : Type := mkFiles {
  endmembers_xlsx : DataFrame;
  results_xlsx : list DataFrame
}.

Inductive Level : Type :=
| INFO
| ERROR.

(** The messages of [main], with the values their text shows. *)
Inductive Message : Type :=
| Starting
| TooManyEndmembers (endmembers : DataFrame)
| NoSecondSheet
| ParameterMismatch
| FailedRow (index : nat) (e : Exception)
| Completed.

Definition LogRecord : Type := (Level * Message)%type.

(** What a run leaves: the log, and the rows written to
    [results_predicted.xlsx] if the file was written. *)
Record Run : Type := mkRun {
  log : list LogRecord;
  results_predicted_xlsx : option (list Dict)
}.

Section Resolver.

(** [minimize_scalar(f, bounds=..., method="bounded")]: the objective may
    raise, and so may the optimizer. *)
Variable minimize_scalar :
  (num -> exc num) -> num * num -> exc OptimizeResult.

Definition _find_optimal_mixture (data : Series) (endmembers_df : DataFrame)
  : exc (num * num * num * Dict) :=
  result <- minimize_scalar
              (fun a1 => _calculate_ssr a1 data endmembers_df)
              (Fin 0, Fin 1) ;;
  let a1_optimal := res_x result in
  let a2_optimal := nsub (Fin 1) a1_optimal in
  let min_ssr := res_fun result in
  endmember1_params <- iloc_row_from endmembers_df 0 1 ;;
  endmember2_params <- iloc_row_from endmembers_df 1 1 ;;
  m1 <- series_mul_scalar endmember1_params a1_optimal ;;
  m2 <- series_mul_scalar endmember2_params a2_optimal ;;
  predicted_params <- series_add m1 m2 ;;
  let predicted_mixture := to_dict predicted_params in
  Ok (a1_optimal, a2_optimal, min_ssr, predicted_mixture).

(** The body of the [try] of [main]: the result record of one row. *)
Definition resolve_row (row : Series) (_endmembers : DataFrame) : exc Dict :=
  r <- _find_optimal_mixture row _endmembers ;;
  let '(a1, a2, ssr, mixture) := r in
  row_id <- iloc row 0 ;;
  Ok (dict_of_items
        ([("id"%string, row_id); ("a1"%string, CNum a1);
          ("a2"%string, CNum a2); ("ssr"%string, CNum ssr)] ++ mixture)).

(** One turn of the loop of [main], on the list [results] and the log. *)
Definition process_row (_endmembers : DataFrame)
    (state : list Dict * list LogRecord) (item : nat * Series)
  : list Dict * list LogRecord :=
  let '(results, logged) := state in
  let '(index, row) := item in
  match resolve_row row _endmembers with
  | Ok _loc_results => (results ++ [_loc_results], logged)
  | Raise e => (results, logged ++ [(ERROR, FailedRow index e)])
  end.

Definition main (files : Files) : Run :=
  let logged := [(INFO, Starting)] in
  let _endmembers := endmembers_xlsx files in
  if 2 <? len _endmembers then
    mkRun (logged ++ [(ERROR, TooManyEndmembers _endmembers)]) None
  else
    match nth_error (results_xlsx files) 1 with
    | None => mkRun (logged ++ [(ERROR, NoSecondSheet)]) None
    | Some _df =>
        if negb (length (tl (columns _df))
                 =? length (tl (columns _endmembers)))
        then mkRun (logged ++ [(ERROR, ParameterMismatch)]) None
        else
          let '(results, logged) :=
            fold_left (process_row _endmembers) (iterrows _df) ([], logged)
          in
          mkRun (logged ++ [(INFO, Completed)]) (Some results)
    end.

End Resolver.

(** An optimizer for the closed examples: the best of three probes of the
    objective, at 0.381966 and at the two bounds.  It is not SciPy's
    algorithm; no property below depends on it. *)
Definition probe_minimize (f : num -> exc num) (bounds : num * num)
  : exc OptimizeResult :=
  let probe (best : OptimizeResult) (a : num) : exc OptimizeResult :=
    v <- f a ;;
    Ok (if ngt (res_fun best) v then mkOptimizeResult a v else best) in
  v0 <- f (Fin (381966 # 1000000)) ;;
  r1 <- probe (mkOptimizeResult (Fin (381966 # 1000000)) v0) (fst bounds) ;;
  probe r1 (snd bounds).


(* ------------------------------------------------------------------ *)
(** ** The same functions on a store of objects *)

(** A second rendition of [_calculate_ssr], [_find_optimal_mixture] and the
    loop of [main], with the pandas objects in a store: an operation reads
    its operands by reference and puts its result into a new cell, and
    [results.append] overwrites the cell of the list.  The values computed
    are those of the first rendition; the messages are left to it. *)

Module Heap.

Definition ref : Type := nat.

Inductive object : Type :=
| OSeries (s : Series)
| OFrame (df : DataFrame)
| OBools (b : list bool)
| OArray (a : list cell)
| ODict (d : Dict)
| OList (l : list ref).

Definition heap : Type := list object.

(** Computations on the store that may raise. *)
Definition M (A : Type) : Type := heap -> heap * exc A.

Definition ret {A : Type} (a : A) : M A := fun h => (h, Ok a).

Definition raise {A : Type} (e : Exception) : M A := fun h => (h, Raise e).

Definition lift {A : Type} (r : exc A) : M A := fun h => (h, r).

Definition bind {A B : Type} (m : M A) (k : A -> M B) : M B :=
  fun h =>
    match m h with
    | (h', Ok a) => k a h'
    | (h', Raise e) => (h', Raise e)
    end.

Notation "x <~ m ;; k" := (bind m (fun x => k))
  (at level 61, m at next level, right associativity).

(** [try: ... except Exception as e: ...] *)
Definition try_ {A : Type} (m : M A) : M (exc A) :=
  fun h => (fst (m h), Ok (snd (m h))).

Definition new (o : object) : M ref :=
  fun h => (h ++ [o], Ok (length h)).

Definition load (r : ref) : M object :=
  fun h =>
    match nth_error h r with
    | Some o => (h, Ok o)
    | None => (h, Raise ValueError)
    end.

Fixpoint update (h : heap) (r : ref) (o : object) : heap :=
  match h, r with
  | [], _ => []
  | _ :: h', O => o :: h'
  | x :: h', S r' => x :: update h' r' o
  end.

Definition store (r : ref) (o : object) : M unit :=
  fun h => (update h r o, Ok tt).

Definition load_series (r : ref) : M Series :=
  o <~ load r ;;
  match o with
  | OSeries s => ret s
  | _ => raise TypeError
  end.

Definition load_frame (r : ref) : M DataFrame :=
  o <~ load r ;;
  match o with
  | OFrame df => ret df
  | _ => raise TypeError
  end.

Definition load_bools (r : ref) : M (list bool) :=
  o <~ load r ;;
  match o with
  | OBools b => ret b
  | _ => raise TypeError
  end.

Definition load_array (r : ref) : M (list cell) :=
  o <~ load r ;;
  match o with
  | OArray a => ret a
  | _ => raise TypeError
  end.

Definition load_dict (r : ref) : M Dict :=
  o <~ load r ;;
  match o with
  | ODict d => ret d
  | _ => raise TypeError
  end.

(** An operation on one Series and one on two: the result is a new
    Series. *)
Definition series_op1 (f : Series -> exc Series) (r : ref) : M ref :=
  s <~ load_series r ;;
  v <~ lift (f s) ;;
  new (OSeries v).

Definition series_op2 (f : Series -> Series -> exc Series) (r1 r2 : ref)
  : M ref :=
  s1 <~ load_series r1 ;;
  s2 <~ load_series r2 ;;
  v <~ lift (f s1 s2) ;;
  new (OSeries v).

(** [df.iloc[i, k:]] *)
Definition frame_iloc (df : ref) (i k : nat) : M ref :=
  d <~ load_frame df ;;
  v <~ lift (iloc_row_from d i k) ;;
  new (OSeries v).

(** [s > c] *)
Definition series_gt (r : ref) (c : num) : M ref :=
  s <~ load_series r ;;
  v <~ lift (series_gt_scalar s c) ;;
  new (OBools v).

(** [np.where(cond, x, y)] *)
Definition array_where (cond x : ref) (y : num) : M ref :=
  c <~ load_bools cond ;;
  s <~ load_series x ;;
  v <~ lift (np_where c (values s) y) ;;
  new (OArray v).

(** [np.square(a)] *)
Definition array_square (a : ref) : M ref :=
  x <~ load_array a ;;
  v <~ lift (np_square x) ;;
  new (OArray v).

(** [np.sum(a)] *)
Definition array_sum (a : ref) : M num :=
  x <~ load_array a ;;
  lift (np_sum x).

Definition _calculate_ssr (a1 : num) (data endmembers_df : ref) : M num :=
  let a1 := np_clip a1 (Fin 0) (Fin 1) in
  let a2 := nsub (Fin 1) a1 in
  endmember1_params <~ frame_iloc endmembers_df 0 1 ;;
  endmember2_params <~ frame_iloc endmembers_df 1 1 ;;
  data_params <~ series_op1 (fun s => Ok (iloc_from s 1)) data ;;
  m1 <~ series_op1 (fun s => series_mul_scalar s a1) endmember1_params ;;
  m2 <~ series_op1 (fun s => series_mul_scalar s a2) endmember2_params ;;
  predicted_params <~ series_op2 series_add m1 m2 ;;
  s <~ series_op2 series_add data_params predicted_params ;;
  denominator <~ series_op1 (fun s => series_div_scalar s (Fin 2)) s ;;
  absolute <~ series_op1 np_abs denominator ;;
  cond <~ series_gt absolute epsilon ;;
  difference <~ series_op2 series_sub predicted_params data_params ;;
  quotient <~ series_op2 series_div difference denominator ;;
  residuals <~ array_where cond quotient (Fin 0) ;;
  squared_residuals <~ array_square residuals ;;
  array_sum squared_residuals.

(** [results.append(d)] *)
Definition append (results d : ref) : M unit :=
  o <~ load results ;;
  match o with
  | OList l => store results (OList (l ++ [d]))
  | _ => raise TypeError
  end.

Fixpoint for_each {A : Type} (items : list A) (body : A -> M unit)
  : M unit :=
  match items with
  | [] => ret tt
  | x :: items' => _ <~ body x ;; for_each items' body
  end.

Section Resolver.

Variable minimize_scalar :
  (num -> M num) -> num * num -> M OptimizeResult.

Definition _find_optimal_mixture (data endmembers_df : ref)
  : M (num * num * num * ref) :=
  result <~ minimize_scalar
              (fun a1 => _calculate_ssr a1 data endmembers_df)
              (Fin 0, Fin 1) ;;
  let a1_optimal := res_x result in
  let a2_optimal := nsub (Fin 1) a1_optimal in
  let min_ssr := res_fun result in
  endmember1_params <~ frame_iloc endmembers_df 0 1 ;;
  endmember2_params <~ frame_iloc endmembers_df 1 1 ;;
  m1 <~ series_op1 (fun s => series_mul_scalar s a1_optimal)
          endmember1_params ;;
  m2 <~ series_op1 (fun s => series_mul_scalar s a2_optimal)
          endmember2_params ;;
  predicted_params <~ series_op2 series_add m1 m2 ;;
  p <~ load_series predicted_params ;;
  predicted_mixture <~ new (ODict (to_dict p)) ;;
  ret (a1_optimal, a2_optimal, min_ssr, predicted_mixture).

(** Lines 116 to 132 of [main]: the list [results] and the loop. *)
Definition process_rows (_endmembers _df : ref) : M ref :=
  results <~ new (OList []) ;;
  df <~ load_frame _df ;;
  _ <~ for_each (iterrows df)
         (fun item =>
            row <~ new (OSeries (snd item)) ;;
            _ <~ try_
                   (r <~ _find_optimal_mixture row _endmembers ;;
                    let '(a1, a2, ssr, mixture) := r in
                    s <~ load_series row ;;
                    row_id <~ lift (iloc s 0) ;;
                    items <~ load_dict mixture ;;
                    _loc_results <~
                      new (ODict
                             (dict_of_items
                                ([("id"%string, row_id);
                                  ("a1"%string, CNum a1);
                                  ("a2"%string, CNum a2);
                                  ("ssr"%string, CNum ssr)] ++ items))) ;;
                    append results _loc_results) ;;
            ret tt) ;;
  ret results.

End Resolver.

(** The three-probe optimizer of the examples, on the store. *)
Definition probe_minimize (f : num -> M num) (bounds : num * num)
  : M OptimizeResult :=
  let probe (best : OptimizeResult) (a : num) : M OptimizeResult :=
    v <~ f a ;;
    ret (if ngt (res_fun best) v then mkOptimizeResult a v else best) in
  v0 <~ f (Fin (381966 # 1000000)) ;;
  r1 <~ probe (mkOptimizeResult (Fin (381966 # 1000000)) v0) (fst bounds) ;;
  probe r1 (snd bounds).

(** *** Which cells a computation may change *)

(** Run on a store of at least [n] cells, [m] keeps them all and leaves
    the first [n] as they were; a value it returns satisfies [Q]. *)
Definition frames {A : Type} (n : nat) (m : M A) (Q : A -> Prop) : Prop :=
  forall h, (n <= length h)%nat ->
    (length h <= length (fst (m h)))%nat
    /\ (forall r, (r < n)%nat -> nth_error (fst (m h)) r = nth_error h r)
    /\ (forall a, snd (m h) = Ok a -> Q a).

Definition any {A : Type} (_ : A) : Prop := True.

End Heap.

(* ================================================================== *)
(** * Definitions used to state the properties *)

(* ------------------------------------------------------------------ *)
(** ** Vectors over shared labels, and one position of the pipeline *)

(** A Series of numbers over the labels [ls]. *)
Definition labelled (ls : list label) (xs : list num) : Series :=
  combine ls (map CNum xs).

Definition pointwise (f : num -> num -> num) (xs ys : list num) : list num :=
  map (fun p => f (fst p) (snd p)) (combine xs ys).

(** The residual of one feature and its square: what lines 43 to 49
    compute at one position (lemma [sum_squared_residuals_labelled]).  The
    quotient is computed whatever the denominator is, and dropped when the
    denominator is too small. *)
Definition residual (d p : num) : num :=
  let denominator := ndiv (nadd d p) (Fin 2) in
  let quotient := ndiv (nsub p d) denominator in
  if ngt (nabs denominator) epsilon then quotient else Fin 0.

Definition squared_residual (d p : num) : num :=
  let r := residual d p in nmul r r.

(** The sample row and the endmember table over the feature labels [ls]:
    an identifier followed by the feature values. *)
Definition sample_row (id_label : label) (id : cell) (ls : list label)
    (d : list num) : Series :=
  (id_label, id) :: labelled ls d.

Definition endmember_table (id_label : label) (ls : list label)
    (id1 id2 : cell) (e1 e2 : list num) : DataFrame :=
  mkDataFrame (id_label :: ls) [id1 :: map CNum e1; id2 :: map CNum e2].

(** [e1 * a1 + e2 * a2], position by position. *)
Definition mixture (a1 a2 : num) (e1 e2 : list num) : list num :=
  pointwise nadd (map (fun x => nmul x a1) e1) (map (fun x => nmul x a2) e2).

(* ------------------------------------------------------------------ *)
(** ** The Residual Model as the specification words it (section 4.1) *)

Definition eps : Q := 1 # 1000000000.

(** Step 1: clamp [a1] to [0,1]. *)
Definition clamp (a1 : Q) : Q := Qmin (Qmax a1 0) 1.

(** Step 3: [r = (p - d) / ((d + p)/2)] when [|(d + p)/2| > eps], else 0. *)
Definition relative_residual (d p : Q) : Q :=
  let m := (d + p) / 2 in
  if negb (Qle_bool (Qabs m) eps) then (p - d) / m else 0.

Definition Qsum (l : list Q) : Q := fold_right Qplus 0 l.

(** The squared residuals of the features, for the fractions [a1], [a2]. *)
Definition residual_terms (a1 a2 : Q) (d e1 e2 : list Q) : list Q :=
  map (fun t : Q * (Q * Q) =>
         let p := fst (snd t) * a1 + snd (snd t) * a2 in
         relative_residual (fst t) p * relative_residual (fst t) p)
      (combine d (combine e1 e2)).

(** Steps 1 to 4. *)
Definition ssr_reference (a1 : Q) (d e1 e2 : list Q) : Q :=
  let a1 := clamp a1 in
  let a2 := 1 - a1 in
  Qsum (residual_terms a1 a2 d e1 e2).

(* ------------------------------------------------------------------ *)
(** ** The batch driver as the specification words it *)

(** The sample rows in input order, as [iterrows] yields them. *)
Definition sample_rows (df : DataFrame) : list Series :=
  map (combine (columns df)) (rows df).

(** The results that are not exceptions, in order. *)
Fixpoint successes {A : Type} (l : list (exc A)) : list A :=
  match l with
  | [] => []
  | Ok a :: l' => a :: successes l'
  | Raise _ :: l' => successes l'
  end.

(** The diagnostics of the rows that raised, in order. *)
Fixpoint failures {A : Type} (l : list (nat * exc A)) : list LogRecord :=
  match l with
  | [] => []
  | (i, Raise e) :: l' => (ERROR, FailedRow i e) :: failures l'
  | (_, Ok _) :: l' => failures l'
  end.

(** The three checks of [main] pass, [_df] being the second sheet. *)
Definition validated (files : Files) (_df : DataFrame) : Prop :=
  (len (endmembers_xlsx files) <= 2)%nat
  /\ nth_error (results_xlsx files) 1 = Some _df
  /\ length (tl (columns _df))
     = length (tl (columns (endmembers_xlsx files))).

(** The values the text of a message shows. *)
Definition shown (m : Message) : list cell :=
  match m with
  | FailedRow i _ => [CNum (Fin (inject_Z (Z.of_nat i)))]
  | TooManyEndmembers endmembers => List.concat (rows endmembers)
  | _ => []
  end.

(** C7 as the specification words it: the diagnostic of a failing row
    shows the identifier of the row, the value of its first column. *)
Definition diagnostics_name_row_identifier
    (minimize_scalar : (num -> exc num) -> num * num -> exc OptimizeResult)
  : Prop :=
  forall (files : Files) (_df : DataFrame) (i : nat) (row : Series)
         (e : Exception),
    validated files _df ->
    nth_error (sample_rows _df) i = Some row ->
    resolve_row minimize_scalar row (endmembers_xlsx files) = Raise e ->
    exists id m,
      iloc row 0 = Ok id
      /\ In (ERROR, m) (log (main minimize_scalar files))
      /\ In id (shown m).

(* ------------------------------------------------------------------ *)
(** ** A sample that is one of the endmembers *)






(* ------------------------------------------------------------------ *)
(** ** Closed examples *)

Definition example_endmembers : DataFrame :=
  mkDataFrame ["mineral"; "depth"; "width"; "shift"]%string
    [[CStr "e1"; CNum (Fin 1); CNum (Fin 2); CNum (Fin 0)];
     [CStr "e2"; CNum (Fin 3); CNum (Fin 1); CNum (Fin 0)]].

(** Four samples; the third one has a text where a number should be. *)
Definition example_samples : DataFrame :=
  mkDataFrame ["sample"; "depth"; "width"; "shift"]%string
    [[CStr "s1"; CNum (Fin 1); CNum (Fin 2); CNum (Fin 0)];
     [CStr "s2"; CNum (Fin 3); CNum (Fin 1); CNum (Fin 0)];
     [CStr "s3"; CNum (Fin 3); CStr "bad"; CNum (Fin 0)];
     [CStr "s4"; CNum (Fin 2); CNum (Fin (3 # 2)); CNum (Fin 0)]].

Definition first_sheet : DataFrame :=
  mkDataFrame ["wavelength"; "reflectance"]%string [].

Definition example_files : Files :=
  mkFiles example_endmembers [first_sheet; example_samples].

(** An endmember table with a text in a feature column: every row fails,
    whatever the optimizer does. *)
Definition text_endmembers : DataFrame :=
  mkDataFrame ["mineral"; "depth"]%string
    [[CStr "e1"; CStr "bad"]; [CStr "e2"; CNum (Fin 2)]].

Definition one_sample : DataFrame :=
  mkDataFrame ["sample"; "depth"]%string [[CStr "S1"; CNum (Fin 1)]].

Definition text_files : Files :=
  mkFiles text_endmembers [first_sheet; one_sample].

(** The input of C1 that the checks let through: one endmember only. *)
Definition single_endmember : DataFrame :=
  mkDataFrame ["mineral"; "depth"]%string [[CStr "e1"; CNum (Fin 2)]].

Definition single_endmember_files : Files :=
  mkFiles single_endmember [first_sheet; one_sample].

Definition example_heap : Heap.heap :=
  [Heap.OFrame example_endmembers; Heap.OFrame example_samples;
   Heap.OSeries
     [("sample", CStr "s4"); ("depth", CNum (Fin 2));
      ("width", CNum (Fin (3 # 2))); ("shift", CNum (Fin 0))]%string].

(* ------------------------------------------------------------------ *)
(** ** Further definitions *)

(** A number in the form the operations return: a finite value is a reduced
    fraction. *)
Definition canonical (x : num) : Prop :=
  match x with
  | Fin q => Qred q = q
  | _ => True
  end.

(** The error records of a log, and the rows its diagnostics name. *)
Definition errors (l : list LogRecord) : list LogRecord :=
  filter (fun r => match fst r with ERROR => true | INFO => false end) l.

Fixpoint failed_rows (l : list LogRecord) : list nat :=
  match l with
  | [] => []
  | (_, FailedRow i _) :: l' => i :: failed_rows l'
  | _ :: l' => failed_rows l'
  end.

(** A feature column named like a field of the result record. *)
Definition shadowing_endmembers : DataFrame :=
  mkDataFrame ["mineral"; "a1"]%string
    [[CStr "e1"; CNum (Fin 1)]; [CStr "e2"; CNum (Fin 3)]].

Definition shadowing_row : Series :=
  [("sample", CStr "s1"); ("a1", CNum (Fin 2))]%string.

(** The number a Series has at a label; nan where it has none. *)
Definition value_at (s : Series) (l : label) : num :=
  match lookup l s with
  | Some (CNum x) => x
  | _ => NaN
  end.

(** The lexical order of the labels, by which [Index.union] sorts. *)
Definition label_lt (x y : label) : Prop := String.ltb x y = true.

(* ------------------------------------------------------------------ *)
(** ** [generate_spectra] of [main.py] *)

(** The part of [main.py] that cuts each input spectrum into the three
    peak windows.  [os.listdir] and [pd.read_csv] are external: the names
    of the input folder are an argument, and [read_csv] gives, for a name,
    the first two columns of the table read (lines 238 to 240) or the
    exception raised there.  A cell [CNum x] is one that [pd.to_numeric]
    reads as [x], a cell [CStr _] one that it cannot read. *)
Module Spectra.

(** [s.startswith(p)] and [s.endswith(p)] *)
Definition startswith (s p : string) : bool := String.prefix p s.

Definition endswith (s p : string) : bool :=
  (String.length p <=? String.length s)%nat
  && String.eqb
       (String.substring (String.length s - String.length p)
          (String.length p) s)
       p.

(** [s.split(sep)[0]] for a separator of one character: the text before
    the first separator, all of [s] when it has none. *)
Fixpoint split_first (sep : Ascii.ascii) (s : string) : string :=
  match s with
  | EmptyString => EmptyString
  | String c s' =>
      if Ascii.eqb c sep then EmptyString else String c (split_first sep s')
  end.

Definition _get_files (listdir : list string) : list string :=
  filter (fun file => negb (startswith file ".~lock.")) listdir.

Definition _thresholds : list (string * (Q * Q)) :=
  [("peak-1"%string, (5500, 8000));
   ("peak-2"%string, (4600, 5540));
   ("peak-3"%string, (4310, 4788))].

(** [x >= y] and [x <= y]; every comparison with nan is false. *)
Definition nge (x y : num) : bool :=
  match x, y with
  | NaN, _ => false
  | _, NaN => false
  | _, _ => negb (ngt y x)
  end.

Definition nle (x y : num) : bool := nge y x.

(** [pd.to_numeric(c, errors="coerce")] *)
Definition to_numeric (c : cell) : num :=
  match c with
  | CNum x => x
  | CStr _ => NaN
  end.

Definition isna (x : num) : bool :=
  match x with
  | NaN => true
  | _ => false
  end.

(** [df.dropna()]: the rows without a missing value. *)
Definition dropna (df : list (num * num)) : list (num * num) :=
  filter (fun r => negb (isna (fst r)) && negb (isna (snd r))) df.

(** A file written by [to_csv]: the header and the rows. *)
Record TextFile : Type := mkTextFile {
  header : list string;
  body : list (num * num)
}.

(** Lines 244 to 251: the three files of one input, with their names. *)
Definition peak_files (_filename : string) (_df : list (num * num))
  : list (string * TextFile) :=
  map (fun item : string * (Q * Q) =>
         let _threshold := fst item in
         let _limits := snd item in
         let _peak_filename :=
           (split_first "."%char _filename ++ "-" ++ _threshold)%string in
         let _df_peak :=
           filter (fun r => nge (fst r) (Fin (fst _limits))
                            && nle (fst r) (Fin (snd _limits))) _df in
         ((_peak_filename ++ ".txt")%string,
          mkTextFile ["Wavelength"%string; _peak_filename] _df_peak))
      _thresholds.

Section Generate.

Variable read_csv : string -> exc (list (cell * cell)).

(** Lines 238 to 251: one turn of the loop over the input files. *)
Definition process_file (_filename : string)
  : exc (list (string * TextFile)) :=
  t <- read_csv _filename ;;
  let _df :=
    dropna (map (fun r => (to_numeric (fst r), to_numeric (snd r))) t) in
  Ok (peak_files _filename _df).

(** The loop: the files written, in order, and how the loop ended.  An
    exception ends it; what was written before stays. *)
Fixpoint write_all (_filenames : list string)
  : list (string * TextFile) * exc unit :=
  match _filenames with
  | [] => ([], Ok tt)
  | _filename :: rest =>
      match process_file _filename with
      | Raise e => ([], Raise e)
      | Ok files =>
          let '(written, r) := write_all rest in (files ++ written, r)
      end
  end.

Definition generate_spectra (listdir : list string)
  : list (string * TextFile) * exc unit :=
  write_all
    (filter (fun f => endswith f ".csv" || endswith f ".CSV")
       (_get_files listdir)).

End Generate.

(** What a name of the output folder holds after the writes: the file
    written there last. *)
Definition content (writes : list (string * TextFile)) (path : string)
  : option TextFile :=
  option_map snd (find (fun w => String.eqb path (fst w)) (rev writes)).

(** Row [row] is in the [k]-th file written for an input. *)
Definition written_to (files : list (string * TextFile)) (k : nat)
    (row : num * num) : Prop :=
  exists path tf, nth_error files k = Some (path, tf) /\ In row (body tf).

End Spectra.

(** An input folder: two spectra whose names agree up to the first dot, a
    lock file and a file of another type. *)
Definition example_listdir : list string :=
  ["run.1.csv"; ".~lock.run.1.csv#"; "run.2.CSV"; "notes.txt"]%string.

Definition example_read_csv (name : string) : exc (list (cell * cell)) :=
  if String.eqb name "run.1.csv"
  then Ok [(CNum (Fin 5510), CNum (Fin 42)); (CStr "bad", CNum (Fin 40))]
  else Ok [(CNum (Fin 4700), CNum (Fin 37))].

(** The same folder when the second spectrum cannot be read. *)
Definition failing_read_csv (name : string) : exc (list (cell * cell)) :=
  if String.eqb name "run.2.CSV" then Raise ValueError
  else example_read_csv name.

(* ================================================================== *)
(** * Properties *)

(* ------------------------------------------------------------------ *)
(** ** The vectorised operations, element by element *)

Lemma index_equals_refl (ls : list label) : index_equals ls ls = true.
Proof.
  induction ls as [|l ls IH]; simpl; [reflexivity|].
  now rewrite String.eqb_refl, IH.
Qed.

Lemma index_equals_eq (a b : list label) :
  index_equals a b = true <-> a = b.
Proof.
  split; [|intros ->; apply index_equals_refl].
  revert b; induction a as [|x a IH]; intros [|y b]; simpl;
    try discriminate; [reflexivity|].
  intros H; apply andb_prop in H as [Hxy Hab].
  apply String.eqb_eq in Hxy; subst; f_equal; auto.
Qed.

Lemma index_labelled (ls : list label) (xs : list num) :
  length ls = length xs -> index (labelled ls xs) = ls.
Proof.
  unfold index, labelled. revert xs.
  induction ls as [|l ls IH]; intros [|x xs]; simpl; try discriminate;
    [reflexivity|].
  intros H; f_equal; apply IH; lia.
Qed.

Lemma values_labelled (ls : list label) (xs : list num) :
  length ls = length xs -> values (labelled ls xs) = map CNum xs.
Proof.
  unfold values, labelled. revert xs.
  induction ls as [|l ls IH]; intros [|x xs]; simpl; try discriminate;
    [reflexivity|].
  intros H; f_equal; apply IH; lia.
Qed.

Lemma length_pointwise (f : num -> num -> num) (xs ys : list num) :
  length (pointwise f xs ys) = Nat.min (length xs) (length ys).
Proof.
  unfold pointwise. now rewrite length_map, length_combine.
Qed.

Ltac lengths :=
  repeat (rewrite length_map || rewrite length_pointwise); lia.

Lemma series_scalar_op_labelled op (ls : list label) (xs : list num) c :
  series_scalar_op op (labelled ls xs) c
  = Ok (labelled ls (map (fun x => op x c) xs)).
Proof.
  unfold series_scalar_op, labelled. revert xs.
  induction ls as [|l ls IH]; intros [|x xs]; simpl; try reflexivity.
  now rewrite IH.
Qed.

Lemma zip_arith_labelled op sop (ls : list label) (xs ys : list num) :
  zip_arith (cell_arith op sop) (labelled ls xs) (labelled ls ys)
  = Ok (labelled ls (pointwise op xs ys)).
Proof.
  unfold labelled, pointwise. revert xs ys.
  induction ls as [|l ls IH]; intros [|x xs] [|y ys]; simpl; try reflexivity.
  now rewrite IH.
Qed.

Lemma series_binop_labelled op sop (ls : list label) (xs ys : list num) :
  length ls = length xs -> length ls = length ys ->
  series_binop op sop (labelled ls xs) (labelled ls ys)
  = Ok (labelled ls (pointwise op xs ys)).
Proof.
  intros Hx Hy. unfold series_binop, align.
  rewrite (index_labelled ls xs Hx), (index_labelled ls ys Hy).
  rewrite index_equals_refl. apply zip_arith_labelled.
Qed.

Lemma np_abs_labelled (ls : list label) (xs : list num) :
  np_abs (labelled ls xs) = Ok (labelled ls (map nabs xs)).
Proof.
  unfold np_abs, labelled. revert xs.
  induction ls as [|l ls IH]; intros [|x xs]; simpl; try reflexivity.
  now rewrite IH.
Qed.

Lemma series_gt_scalar_labelled (ls : list label) (xs : list num) c :
  length ls = length xs ->
  series_gt_scalar (labelled ls xs) c = Ok (map (fun x => ngt x c) xs).
Proof.
  unfold series_gt_scalar, labelled. revert xs.
  induction ls as [|l ls IH]; intros [|x xs]; simpl; try discriminate;
    [reflexivity|].
  intros H. rewrite IH by lia. reflexivity.
Qed.

Lemma np_where_numbers (cond : list bool) (xs : list num) (y : num) :
  length cond = length xs ->
  np_where cond (map CNum xs) y
  = Ok (map CNum (map (fun p : bool * num => if fst p then snd p else y)
                      (combine cond xs))).
Proof.
  revert xs.
  induction cond as [|c cond IH]; intros [|x xs]; simpl; try discriminate;
    [reflexivity|].
  intros H. rewrite IH by lia. simpl. now destruct c.
Qed.

Lemma np_square_numbers (xs : list num) :
  np_square (map CNum xs) = Ok (map CNum (map (fun v => nmul v v) xs)).
Proof.
  unfold np_square.
  induction xs as [|x xs IH]; simpl; [reflexivity|].
  now rewrite IH.
Qed.

Lemma np_sum_from_numbers (xs : list num) (acc : num) :
  np_sum_from acc (map CNum xs) = Ok (fold_left nadd xs acc).
Proof.
  revert acc; induction xs as [|x xs IH]; intros acc; simpl;
    [reflexivity|apply IH].
Qed.

(** The pipeline of lines 43 to 51 on two Series of numbers over the same
    labels: the sum of the squared residuals, position by position. *)
Lemma residual_pipeline (ds ps : list num) :
  length ds = length ps ->
  map (fun v => nmul v v)
    (map (fun p : bool * num => if fst p then snd p else Fin 0)
       (combine
          (map (fun x => ngt x epsilon)
             (map nabs (map (fun x => ndiv x (Fin 2)) (pointwise nadd ds ps))))
          (pointwise ndiv (pointwise nsub ps ds)
             (map (fun x => ndiv x (Fin 2)) (pointwise nadd ds ps)))))
  = pointwise squared_residual ds ps.
Proof.
  unfold pointwise. revert ps.
  induction ds as [|d ds IH]; intros [|p ps]; simpl; try discriminate;
    [reflexivity|].
  intros H. f_equal. apply IH. lia.
Qed.

Lemma sum_squared_residuals_labelled (ls : list label) (ds ps : list num) :
  length ls = length ds -> length ls = length ps ->
  sum_squared_residuals (labelled ls ds) (labelled ls ps)
  = Ok (fold_left nadd (pointwise squared_residual ds ps) (Fin 0)).
Proof.
  intros Hd Hp. unfold sum_squared_residuals.
  unfold series_add, series_sub, series_div, series_div_scalar.
  rewrite series_binop_labelled by assumption. simpl.
  rewrite series_scalar_op_labelled. simpl.
  rewrite np_abs_labelled. simpl.
  rewrite series_gt_scalar_labelled by lengths. simpl.
  rewrite series_binop_labelled by assumption. simpl.
  rewrite series_binop_labelled by lengths. simpl.
  rewrite values_labelled by lengths.
  rewrite np_where_numbers by lengths. simpl.
  rewrite np_square_numbers. simpl.
  unfold np_sum. rewrite np_sum_from_numbers.
  rewrite residual_pipeline by lia. reflexivity.
Qed.

Lemma calculate_ssr_pointwise a1 idl idv idc id1 id2 ls d e1 e2 :
  length ls = length d -> length ls = length e1 -> length ls = length e2 ->
  _calculate_ssr a1 (sample_row idl idv ls d)
    (endmember_table idc ls id1 id2 e1 e2)
  = let a := np_clip a1 (Fin 0) (Fin 1) in
    Ok (fold_left nadd
          (pointwise squared_residual d (mixture a (nsub (Fin 1) a) e1 e2))
          (Fin 0)).
Proof.
  intros Hd H1 H2. unfold _calculate_ssr, iloc_row_from, iloc_row. simpl.
  change (combine ls (map CNum e1)) with (labelled ls e1).
  change (combine ls (map CNum e2)) with (labelled ls e2).
  unfold series_mul_scalar, series_add.
  rewrite !series_scalar_op_labelled. simpl.
  rewrite series_binop_labelled by lengths. simpl.
  rewrite sum_squared_residuals_labelled; [reflexivity|lengths|].
  unfold mixture. lengths.
Qed.

(** The checks of [main] compare the numbers of feature columns, not their
    names.  A sample feature that is named differently from the endmember
    features meets no endmember value: the operands are aligned on labels,
    the missing side is nan, and the feature contributes 0. *)
Lemma labels_are_aligned_by_name :
  _calculate_ssr (Fin 1)
    (sample_row "sample"%string (CStr "s1") ["Depth"]%string [Fin 2])
    (endmember_table "mineral"%string ["depth"]%string (CStr "e1") (CStr "e2")
       [Fin 1] [Fin 3])
  = Ok (Fin 0)
  /\ _calculate_ssr (Fin 1)
       (sample_row "sample"%string (CStr "s1") ["depth"]%string [Fin 2])
       (endmember_table "mineral"%string ["depth"]%string
          (CStr "e1") (CStr "e2") [Fin 1] [Fin 3])
     = Ok (Fin (4 # 9)).
Proof. split; reflexivity. Qed.

(* ------------------------------------------------------------------ *)
(** *** Finite values *)

Lemma Qle_bool_comp (x x' y y' : Q) :
  x == x' -> y == y' -> Qle_bool x y = Qle_bool x' y'.
Proof.
  intros Hx Hy.
  destruct (Qle_bool x y) eqn:E1, (Qle_bool x' y') eqn:E2; try reflexivity.
  - apply Qle_bool_iff in E1. rewrite Hx, Hy in E1.
    apply Qle_bool_iff in E1. congruence.
  - apply Qle_bool_iff in E2. rewrite <- Hx, <- Hy in E2.
    apply Qle_bool_iff in E2. congruence.
Qed.

Lemma fin_eq (x y : Q) : x == y -> fin x = fin y.
Proof. intros H. unfold fin. f_equal. now apply Qred_complete. Qed.

Lemma squared_residual_unfold (d p : Q) :
  squared_residual (Fin d) (Fin p)
  = let den := Qred (Qred (d + p) / 2) in
    let r := if negb (Qle_bool (Qred (Qabs den)) eps)
             then ndiv (Fin (Qred (p - d))) (Fin den)
             else Fin 0 in
    nmul r r.
Proof. reflexivity. Qed.

Lemma squared_residual_finite (d p d' p' : Q) :
  d == d' -> p == p' ->
  squared_residual (Fin d) (Fin p)
  = fin (relative_residual d' p' * relative_residual d' p').
Proof.
  intros Hd Hp. rewrite squared_residual_unfold. unfold relative_residual.
  cbv zeta.
  assert (Hm : Qred (Qred (d + p) / 2) == (d' + p') / 2)
    by now rewrite !Qred_correct, Hd, Hp.
  rewrite (Qle_bool_comp _ (Qabs ((d' + p') / 2)) _ eps)
    by (rewrite ?Qred_correct, ?Hd, ?Hp; reflexivity).
  destruct (Qle_bool (Qabs ((d' + p') / 2)) eps) eqn:E; cbv [negb].
  - reflexivity.
  - assert (Hnz : Qeq_bool (Qred (Qred (d + p) / 2)) 0 = false).
    { destruct (Qeq_bool _ 0) eqn:Z; [|reflexivity].
      apply Qeq_bool_iff in Z. rewrite Hm in Z.
      assert (Qle_bool (Qabs ((d' + p') / 2)) eps = true); [|congruence].
      apply Qle_bool_iff. rewrite Z. discriminate. }
    unfold ndiv. rewrite Hnz. unfold nmul, fin. f_equal. apply Qred_complete.
    rewrite !Qred_correct, Hd, Hp. reflexivity.
Qed.

Lemma mixture_terms_finite (a a2 a' a2' : Q) (d e1 e2 : list Q) :
  a == a' -> a2 == a2' ->
  pointwise squared_residual (map Fin d)
    (mixture (Fin a) (Fin a2) (map Fin e1) (map Fin e2))
  = map fin (residual_terms a' a2' d e1 e2).
Proof.
  intros Ha Ha2. unfold mixture, pointwise, residual_terms. revert e1 e2.
  induction d as [|x d IH]; intros [|y e1] [|z e2];
    cbn [map combine fst snd]; try reflexivity.
  rewrite IH. f_equal.
  change (nadd (nmul (Fin y) (Fin a)) (nmul (Fin z) (Fin a2)))
    with (Fin (Qred (Qred (y * a) + Qred (z * a2)))).
  apply squared_residual_finite; [reflexivity|].
  now rewrite !Qred_correct, Ha, Ha2.
Qed.

Lemma Qred_idem (q : Q) : Qred (Qred q) = Qred q.
Proof. apply Qred_complete, Qred_correct. Qed.

Lemma Qred_fixed_fold (qs : list Q) (acc : Q) :
  Qred acc = acc ->
  fold_left nadd (map fin qs) (Fin acc) = fin (acc + Qsum qs).
Proof.
  revert acc; induction qs as [|q qs IH]; intros acc Hacc;
    cbn [map fold_left].
  - unfold fin. rewrite <- Hacc at 1. f_equal. apply Qred_complete.
    unfold Qsum; cbn [fold_right]. lra.
  - change (nadd (Fin acc) (fin q)) with (Fin (Qred (acc + Qred q))).
    rewrite IH by apply Qred_idem.
    apply fin_eq. rewrite !Qred_correct.
    unfold Qsum; cbn [fold_right]. lra.
Qed.

Lemma np_clip_finite (a1 : Q) :
  exists a, np_clip (Fin a1) (Fin 0) (Fin 1) = Fin a /\ a == clamp a1.
Proof.
  unfold np_clip, np_maximum, np_minimum, clamp. simpl.
  destruct (Qle_bool 0 a1) eqn:E0; simpl.
  - apply Qle_bool_iff in E0.
    destruct (Qle_bool a1 1) eqn:E1; simpl.
    + apply Qle_bool_iff in E1. exists a1. split; [reflexivity|].
      rewrite (Q.max_l a1 0), Q.min_l by assumption. reflexivity.
    + exists 1. split; [reflexivity|].
      assert (H : ~ a1 <= 1) by (intros H; apply Qle_bool_iff in H; congruence).
      rewrite (Q.max_l a1 0), Q.min_r by lra. reflexivity.
  - assert (H : ~ 0 <= a1) by (intros H; apply Qle_bool_iff in H; congruence).
    exists 0. split; [reflexivity|].
    rewrite (Q.max_r a1 0), Q.min_l by lra. reflexivity.
Qed.

Lemma relative_residual_square_nonneg (d p : Q) :
  0 <= relative_residual d p * relative_residual d p.
Proof. nra. Qed.

Lemma Qsum_nonneg (l : list Q) : Forall (fun q => 0 <= q) l -> 0 <= Qsum l.
Proof.
  unfold Qsum. induction 1 as [|q l Hq _ IH]; cbn [fold_right]; lra.
Qed.

Lemma residual_terms_nonneg (a1 a2 : Q) (d e1 e2 : list Q) :
  Forall (fun q => 0 <= q) (residual_terms a1 a2 d e1 e2).
Proof.
  unfold residual_terms. apply Forall_forall. intros q Hq.
  apply in_map_iff in Hq as [t [<- _]].
  apply relative_residual_square_nonneg.
Qed.

Lemma ssr_reference_nonneg (a1 : Q) (d e1 e2 : list Q) :
  0 <= ssr_reference a1 d e1 e2.
Proof. apply Qsum_nonneg, residual_terms_nonneg. Qed.

(** On finite numbers over shared labels the source computes the
    reference sum. *)
Lemma calculate_ssr_finite (a1 : Q) idl idv idc id1 id2 (ls : list label)
    (d e1 e2 : list Q) :
  length d = length ls -> length e1 = length ls -> length e2 = length ls ->
  _calculate_ssr (Fin a1) (sample_row idl idv ls (map Fin d))
    (endmember_table idc ls id1 id2 (map Fin e1) (map Fin e2))
  = Ok (fin (ssr_reference a1 d e1 e2)).
Proof.
  intros Hd H1 H2.
  rewrite calculate_ssr_pointwise by (rewrite length_map; lia).
  cbv zeta. destruct (np_clip_finite a1) as [a [-> Ha]].
  change (nsub (Fin 1) (Fin a)) with (Fin (Qred (1 - a))).
  rewrite (mixture_terms_finite a (Qred (1 - a)) (clamp a1) (1 - clamp a1))
    by (rewrite ?Qred_correct, ?Ha; reflexivity).
  rewrite Qred_fixed_fold by reflexivity.
  f_equal. apply fin_eq. unfold ssr_reference. lra.
Qed.

(* ------------------------------------------------------------------ *)
(** ** The Residual Model: claims C3, C5 and C8 *)

(** C3.  For every candidate fraction [a1], sample features [d] and
    endmember features [e1], [e2] of one length, over the same feature
    labels, [_calculate_ssr] returns the reference value of section 4.1:
    [a1] clamped to [0,1], [a2 = 1 - a1], [p = e1*a1 + e2*a2], the relative
    residual [(p - d) / ((d + p)/2)] where [|(d + p)/2| > 1e-9] and 0
    elsewhere, squared and summed; and that value is not negative. *)
Theorem C3_calculate_ssr_is_reference
    (a1 : Q) (idl : label) (idv : cell) (idc : label) (id1 id2 : cell)
    (ls : list label) (d e1 e2 : list Q) :
  length d = length ls -> length e1 = length ls -> length e2 = length ls ->
  _calculate_ssr (Fin a1) (sample_row idl idv ls (map Fin d))
    (endmember_table idc ls id1 id2 (map Fin e1) (map Fin e2))
  = Ok (fin (ssr_reference a1 d e1 e2))
  /\ 0 <= ssr_reference a1 d e1 e2.
Proof.
  intros Hd H1 H2. split.
  - now apply calculate_ssr_finite.
  - apply ssr_reference_nonneg.
Qed.

Lemma C3_calculate_ssr_is_reference_witness :
  _calculate_ssr (Fin (3 # 2))
    (sample_row "sample"%string (CStr "s1") ["f1"; "f2"; "f3"]%string
       (map Fin [2; 3 # 2; 0]))
    (endmember_table "endmember"%string ["f1"; "f2"; "f3"]%string
       (CStr "e1") (CStr "e2") (map Fin [1; 2; 0]) (map Fin [3; 1; 0]))
  = Ok (fin (ssr_reference (3 # 2) [2; 3 # 2; 0] [1; 2; 0] [3; 1; 0]))
  /\ 0 <= ssr_reference (3 # 2) [2; 3 # 2; 0] [1; 2; 0] [3; 1; 0].
Proof.
  apply (C3_calculate_ssr_is_reference (3 # 2) "sample"%string (CStr "s1")
           "endmember"%string (CStr "e1") (CStr "e2")
           ["f1"; "f2"; "f3"]%string
           [2; 3 # 2; 0] [1; 2; 0] [3; 1; 0]); reflexivity.
Defined.

Lemma residual_terms_app (a1 a2 : Q) (d d' e1 e1' e2 e2' : list Q) :
  length e1 = length d -> length e2 = length d ->
  residual_terms a1 a2 (d ++ d') (e1 ++ e1') (e2 ++ e2')
  = residual_terms a1 a2 d e1 e2 ++ residual_terms a1 a2 d' e1' e2'.
Proof.
  unfold residual_terms. revert e1 e2.
  induction d as [|x d IH]; intros [|y e1] [|z e2]; cbn [length];
    try discriminate; [reflexivity|].
  intros H1 H2. cbn [app combine map]. f_equal. apply IH; lia.
Qed.

Lemma Qsum_app (l l' : list Q) : Qsum (l ++ l') == Qsum l + Qsum l'.
Proof.
  unfold Qsum. induction l as [|q l IH]; cbn [app fold_right]; [lra|].
  rewrite IH. lra.
Qed.

Lemma relative_residual_degenerate (d p : Q) :
  Qabs ((d + p) / 2) <= eps -> relative_residual d p = 0.
Proof.
  intros H. unfold relative_residual. cbv zeta.
  apply Qle_bool_iff in H. now rewrite H.
Qed.

(** C5.  On finite numbers [_calculate_ssr] does not raise and returns a
    finite, non-negative number; and a feature whose denominator
    [(d + p)/2] is within [1e-9] of zero contributes exactly 0: the result is
    the one the tables without that feature give.  (The quotient of such a
    feature is computed, may be infinite or nan, and is dropped.) *)
Theorem C5_degenerate_feature_contributes_zero
    (a1 : Q) (idl : label) (idv : cell) (idc : label) (id1 id2 : cell)
    (ls ls' : list label) (l : label)
    (d d' e1 e1' e2 e2' : list Q) (di x y : Q) :
  length d = length ls -> length e1 = length ls -> length e2 = length ls ->
  length d' = length ls' -> length e1' = length ls' ->
  length e2' = length ls' ->
  Qabs ((di + (x * clamp a1 + y * (1 - clamp a1))) / 2) <= eps ->
  let ssr :=
    _calculate_ssr (Fin a1)
      (sample_row idl idv (ls ++ l :: ls') (map Fin (d ++ di :: d')))
      (endmember_table idc (ls ++ l :: ls') id1 id2
         (map Fin (e1 ++ x :: e1')) (map Fin (e2 ++ y :: e2'))) in
  (exists s, ssr = Ok (Fin s) /\ 0 <= s)
  /\ ssr = _calculate_ssr (Fin a1)
             (sample_row idl idv (ls ++ ls') (map Fin (d ++ d')))
             (endmember_table idc (ls ++ ls') id1 id2
                (map Fin (e1 ++ e1')) (map Fin (e2 ++ e2'))).
Proof.
  intros Hd H1 H2 Hd' H1' H2' Hdeg ssr. subst ssr.
  rewrite !calculate_ssr_finite
    by (rewrite !length_app; cbn [length]; lia).
  split.
  - eexists. split; [reflexivity|].
    rewrite Qred_correct. apply ssr_reference_nonneg.
  - f_equal. apply fin_eq. unfold ssr_reference. cbv zeta.
    rewrite !residual_terms_app by lia.
    change (di :: d') with ([di] ++ d').
    change (x :: e1') with ([x] ++ e1').
    change (y :: e2') with ([y] ++ e2').
    rewrite residual_terms_app by reflexivity.
    rewrite !Qsum_app.
    unfold residual_terms at 2. cbn [combine map fst snd].
    rewrite (relative_residual_degenerate _ _ Hdeg).
    unfold Qsum at 2. cbn [fold_right]. lra.
Qed.

Lemma C5_degenerate_feature_contributes_zero_witness :
  let ssr :=
    _calculate_ssr (Fin (1 # 4))
      (sample_row "sample"%string (CStr "s1") ["f1"; "f2"; "f3"]%string
         (map Fin [2; 0; 5]))
      (endmember_table "endmember"%string ["f1"; "f2"; "f3"]%string
         (CStr "e1") (CStr "e2") (map Fin [1; 0; 4]) (map Fin [3; 0; 8])) in
  (exists s, ssr = Ok (Fin s) /\ 0 <= s)
  /\ ssr = _calculate_ssr (Fin (1 # 4))
             (sample_row "sample"%string (CStr "s1") ["f1"; "f3"]%string
                (map Fin [2; 5]))
             (endmember_table "endmember"%string ["f1"; "f3"]%string
                (CStr "e1") (CStr "e2") (map Fin [1; 4]) (map Fin [3; 8])).
Proof.
  apply (C5_degenerate_feature_contributes_zero (1 # 4) "sample"%string
           (CStr "s1") "endmember"%string (CStr "e1") (CStr "e2")
           ["f1"%string] ["f3"%string]
           "f2"%string [2] [5] [1] [4] [3] [8] 0 0 0);
    try reflexivity.
  vm_compute. discriminate.
Defined.

Lemma nadd_comm (x y : num) : nadd x y = nadd y x.
Proof.
  destruct x as [a| | |], y as [b| | |]; try reflexivity.
  apply fin_eq. lra.
Qed.

Lemma residual_swap (d p : num) : residual p d = nneg (residual d p).
Proof.
  unfold residual. cbv zeta. rewrite (nadd_comm p d).
  destruct d as [a| | |], p as [b| | |]; try reflexivity.
  change (ndiv (nadd (Fin a) (Fin b)) (Fin 2))
    with (Fin (Qred (Qred (a + b) / 2))).
  destruct (ngt _ epsilon) eqn:E; [|reflexivity].
  change (nsub (Fin a) (Fin b)) with (Fin (Qred (a - b))).
  change (nsub (Fin b) (Fin a)) with (Fin (Qred (b - a))).
  unfold ndiv.
  destruct (Qeq_bool (Qred (Qred (a + b) / 2)) 0) eqn:Z.
  - apply Qeq_bool_iff in Z. exfalso. revert E.
    unfold ngt, nabs, fin, epsilon.
    rewrite (Qle_bool_comp _ 0 _ (1 # 1000000000));
      [discriminate| |reflexivity].
    rewrite Qred_correct, Z. reflexivity.
  - unfold nneg. apply fin_eq. rewrite !Qred_correct. unfold Qdiv. ring.
Qed.

Lemma nmul_nneg (x : num) : nmul (nneg x) (nneg x) = nmul x x.
Proof.
  destruct x as [a| | |]; try reflexivity.
  unfold nneg, fin, nmul. apply fin_eq. rewrite !Qred_correct. ring.
Qed.

Lemma squared_residual_swap (d p : num) :
  squared_residual p d = squared_residual d p.
Proof.
  unfold squared_residual. cbv zeta. rewrite residual_swap. apply nmul_nneg.
Qed.

Lemma pointwise_swap (f : num -> num -> num) (xs ys : list num) :
  (forall x y, f y x = f x y) -> pointwise f ys xs = pointwise f xs ys.
Proof.
  intros Hf. unfold pointwise. revert ys.
  induction xs as [|x xs IH]; intros [|y ys]; cbn [combine map fst snd];
    try reflexivity.
  now rewrite IH, Hf.
Qed.

(** C8.  Swapping which of the two vectors is the observed one and which
    the predicted one leaves every squared residual, and so the sum that
    lines 43 to 51 compute, unchanged: the denominator is the same average,
    the numerator changes sign, so each residual is negated. *)
Theorem C8_residuals_symmetric_under_swap
    (ls : list label) (ds ps : list num) :
  length ds = length ls -> length ps = length ls ->
  sum_squared_residuals (labelled ls ps) (labelled ls ds)
  = sum_squared_residuals (labelled ls ds) (labelled ls ps)
  /\ pointwise squared_residual ps ds = pointwise squared_residual ds ps
  /\ pointwise residual ps ds
     = map nneg (pointwise residual ds ps).
Proof.
  intros Hd Hp.
  assert (Hsq : pointwise squared_residual ps ds
                = pointwise squared_residual ds ps)
    by (apply pointwise_swap, squared_residual_swap).
  split; [|split; [exact Hsq|]].
  - rewrite !sum_squared_residuals_labelled by lia. now rewrite Hsq.
  - unfold pointwise. clear Hsq. revert ps ls Hd Hp.
    induction ds as [|d ds IH]; intros [|p ps] ls Hd Hp;
      cbn [combine map fst snd]; try reflexivity.
    destruct ls as [|l ls]; [discriminate|].
    rewrite residual_swap. f_equal. apply (IH ps ls); simpl in *; lia.
Qed.

Lemma C8_residuals_symmetric_under_swap_witness :
  sum_squared_residuals
    (labelled ["f1"; "f2"]%string [Fin 3; Fin 0])
    (labelled ["f1"; "f2"]%string [Fin 1; Fin 0])
  = sum_squared_residuals
      (labelled ["f1"; "f2"]%string [Fin 1; Fin 0])
      (labelled ["f1"; "f2"]%string [Fin 3; Fin 0])
  /\ pointwise squared_residual [Fin 3; Fin 0] [Fin 1; Fin 0]
     = pointwise squared_residual [Fin 1; Fin 0] [Fin 3; Fin 0]
  /\ pointwise residual [Fin 3; Fin 0] [Fin 1; Fin 0]
     = map nneg (pointwise residual [Fin 1; Fin 0] [Fin 3; Fin 0]).
Proof.
  apply (C8_residuals_symmetric_under_swap ["f1"; "f2"]%string
           [Fin 1; Fin 0] [Fin 3; Fin 0]); reflexivity.
Defined.

(* ------------------------------------------------------------------ *)
(** ** The batch driver: claims C1, C2, C6, C7 and C10 *)

Lemma map_snd_enumerate {A : Type} (l : list A) (k : nat) :
  map snd (combine (seq k (length l)) l) = l.
Proof.
  revert k. induction l as [|r l IH]; intros k;
    cbn [length seq combine map snd]; [reflexivity|now rewrite IH].
Qed.

Lemma map_snd_iterrows (df : DataFrame) :
  map snd (iterrows df) = sample_rows df.
Proof.
  unfold iterrows, sample_rows.
  rewrite <- (length_map (combine (columns df)) (rows df)).
  apply map_snd_enumerate.
Qed.

Lemma successes_all_raise {A B : Type} (f : A -> exc B) (l : list A) :
  (forall a, In a l -> exists e, f a = Raise e) -> successes (map f l) = [].
Proof.
  induction l as [|a l IH]; intros H; cbn [map successes]; [reflexivity|].
  destruct (H a (or_introl eq_refl)) as [e ->].
  apply IH. intros b Hb. apply H. now right.
Qed.

Lemma In_failures {A B : Type} (f : A -> exc B) (l : list A) (k i : nat)
    (e : Exception) :
  In (ERROR, FailedRow i e)
     (failures (map (fun it => (fst it, f (snd it)))
                    (combine (seq k (length l)) l)))
  <-> (k <= i)%nat
      /\ exists a, nth_error l (i - k) = Some a /\ f a = Raise e.
Proof.
  revert k. induction l as [|a l IH]; intros k;
    cbn [length seq combine map failures fst snd].
  - split; [intros []|intros [_ [a [H _]]]].
    now destruct (i - k)%nat.
  - assert (Hrest :
      In (ERROR, FailedRow i e)
         (failures (map (fun it => (fst it, f (snd it)))
                        (combine (seq (S k) (length l)) l)))
      <-> (k < i)%nat
          /\ exists b, nth_error (a :: l) (i - k) = Some b /\ f b = Raise e).
    { rewrite IH. split; intros [Hk [b [Hb Hf]]]; (split; [lia|]);
        exists b; (split; [|exact Hf]).
      - replace (i - k)%nat with (S (i - S k)) by lia. exact Hb.
      - replace (i - k)%nat with (S (i - S k)) in Hb by lia. exact Hb. }
    destruct (f a) as [v|e0] eqn:Hfa.
    + rewrite Hrest. split; intros [Hk [b [Hb Hf]]].
      * split; [lia|]. now exists b.
      * split; [|now exists b].
        destruct (Nat.eq_dec i k) as [->|]; [|lia].
        rewrite Nat.sub_diag in Hb. cbn in Hb.
        injection Hb as <-. congruence.
    + cbn [In]. rewrite Hrest. split.
      * intros [Heq|[Hk [b [Hb Hf]]]].
        -- injection Heq as <- <-. split; [lia|].
           exists a. rewrite Nat.sub_diag. now split.
        -- split; [lia|]. now exists b.
      * intros [Hk [b [Hb Hf]]].
        destruct (Nat.eq_dec i k) as [->|].
        -- left. rewrite Nat.sub_diag in Hb. cbn in Hb.
           injection Hb as <-. congruence.
        -- right. split; [lia|]. now exists b.
Qed.

Section Driver.

Variable minimize_scalar :
  (num -> exc num) -> num * num -> exc OptimizeResult.

Lemma loop_unfold (E : DataFrame) (items : list (nat * Series))
    (results : list Dict) (logged : list LogRecord) :
  fold_left (process_row minimize_scalar E) items (results, logged)
  = (results
     ++ successes
          (map (fun it => resolve_row minimize_scalar (snd it) E) items),
     logged
     ++ failures
          (map (fun it => (fst it, resolve_row minimize_scalar (snd it) E))
             items)).
Proof.
  revert results logged.
  induction items as [|[i row] items IH]; intros results logged;
    cbn [fold_left map successes failures fst snd].
  - now rewrite !app_nil_r.
  - unfold process_row at 2.
    destruct (resolve_row minimize_scalar row E) as [rec|e]; rewrite IH;
      now rewrite <- ?app_assoc.
Qed.

(** A run whose tables pass the checks: the rows that resolve give the
    output, the others the diagnostics, and the run completes. *)
Lemma main_validated (files : Files) (_df : DataFrame) :
  validated files _df ->
  main minimize_scalar files
  = mkRun
      ([(INFO, Starting)]
       ++ failures
            (map (fun it =>
                    (fst it,
                     resolve_row minimize_scalar (snd it)
                       (endmembers_xlsx files)))
                 (iterrows _df))
       ++ [(INFO, Completed)])
      (Some (successes
               (map (fun row =>
                       resolve_row minimize_scalar row
                         (endmembers_xlsx files))
                    (sample_rows _df)))).
Proof.
  intros [Hlen [Hsheet Hcols]]. unfold main.
  destruct (Nat.ltb_spec 2 (len (endmembers_xlsx files))) as [|_]; [lia|].
  rewrite Hsheet, Hcols, Nat.eqb_refl. cbn [negb].
  rewrite loop_unfold. cbn [app].
  rewrite <- map_snd_iterrows, map_map. reflexivity.
Qed.

(** C2.  The driver takes the rows in input order; a row whose resolve
    raises is skipped and the loop goes on, so the run always completes,
    and the table written holds exactly the records of the rows that
    resolved, in input order. *)
Theorem C2_output_is_the_resolved_rows_in_order
    (files : Files) (_df : DataFrame) :
  validated files _df ->
  let run := main minimize_scalar files in
  let outcomes :=
    map (fun row =>
           resolve_row minimize_scalar row (endmembers_xlsx files))
        (sample_rows _df) in
  results_predicted_xlsx run = Some (successes outcomes)
  /\ exists logged, log run = logged ++ [(INFO, Completed)].
Proof.
  intros Hv run outcomes. subst run outcomes.
  rewrite (main_validated files _df Hv). cbn [results_predicted_xlsx log].
  split; [reflexivity|].
  eexists. rewrite app_assoc. reflexivity.
Qed.

(** C7, as the code has it.  The diagnostic of a row that fails to
    resolve names the position of the row in the sample table (the index
    label [iterrows] yields, from 0) with the exception raised: the log has
    the entry [FailedRow i e] exactly when row [i] raised [e]. *)
Theorem C7_diagnostic_names_row_position
    (files : Files) (_df : DataFrame) (i : nat) (e : Exception) :
  validated files _df ->
  In (ERROR, FailedRow i e) (log (main minimize_scalar files))
  <-> exists row,
        nth_error (sample_rows _df) i = Some row
        /\ resolve_row minimize_scalar row (endmembers_xlsx files)
           = Raise e.
Proof.
  intros Hv. rewrite (main_validated files _df Hv). cbn [log].
  unfold iterrows. fold (sample_rows _df).
  rewrite <- (length_map (combine (columns _df)) (rows _df)).
  fold (sample_rows _df).
  rewrite !in_app_iff.
  rewrite (In_failures
             (fun row =>
                resolve_row minimize_scalar row (endmembers_xlsx files))).
  rewrite Nat.sub_0_r. cbn [In].
  split.
  - intros [[H|[]]|[[_ H]|[H|[]]]]; try discriminate. exact H.
  - intros H. right. left. split; [lia|exact H].
Qed.

(** C10.  A run whose tables pass the checks writes the result table and
    reports completion however many rows resolved; when every row fails
    the table written is empty and the run still ends with the completion
    message. *)
Theorem C10_run_completes_whatever_resolves
    (files : Files) (_df : DataFrame) :
  validated files _df ->
  let run := main minimize_scalar files in
  (exists logged results,
      run = mkRun (logged ++ [(INFO, Completed)]) (Some results))
  /\ ((forall row, In row (sample_rows _df) ->
         exists e,
           resolve_row minimize_scalar row (endmembers_xlsx files)
           = Raise e) ->
      results_predicted_xlsx run = Some []
      /\ exists logged, log run = logged ++ [(INFO, Completed)]).
Proof.
  intros Hv run. subst run. rewrite (main_validated files _df Hv). split.
  - eexists. eexists. rewrite app_assoc. reflexivity.
  - intros Hall. cbn [results_predicted_xlsx log].
    rewrite (successes_all_raise _ _ Hall). split; [reflexivity|].
    eexists. rewrite app_assoc. reflexivity.
Qed.

(** C6.  The second fraction a resolved row returns is [1.0 - a1] of the
    first one, so for every resolved row, whose first fraction is a finite
    number, the two sum to 1 exactly. *)
Theorem C6_fractions_sum_to_one
    (data : Series) (endmembers_df : DataFrame) (a1 : Q) (a2 ssr : num)
    (mixture : Dict) :
  _find_optimal_mixture minimize_scalar data endmembers_df
  = Ok (Fin a1, a2, ssr, mixture) ->
  a2 = nsub (Fin 1) (Fin a1) /\ nadd (Fin a1) a2 = Fin 1.
Proof.
  unfold _find_optimal_mixture. intros H.
  destruct (minimize_scalar _ _) as [res|e]; [|discriminate].
  cbn [bind] in H.
  destruct (iloc_row_from endmembers_df 0 1) as [p1|]; [|discriminate].
  destruct (iloc_row_from endmembers_df 1 1) as [p2|]; [|discriminate].
  cbn [bind] in H.
  destruct (series_mul_scalar p1 _) as [m1|]; [|discriminate].
  destruct (series_mul_scalar p2 _) as [m2|]; [|discriminate].
  cbn [bind] in H.
  destruct (series_add m1 m2) as [p|]; [|discriminate].
  cbn [bind] in H. injection H as Hx <- _ _. rewrite Hx.
  split; [reflexivity|].
  unfold nsub, nadd, fin. f_equal.
  transitivity (Qred 1); [|reflexivity].
  apply Qred_complete. rewrite Qred_correct. ring.
Qed.

(** [main] stops before the loop, with an error and nothing written,
    when the endmember table has more than two rows or the numbers of
    feature columns differ. *)
Lemma main_too_many_endmembers (files : Files) :
  (2 < len (endmembers_xlsx files))%nat ->
  main minimize_scalar files
  = mkRun [(INFO, Starting);
           (ERROR, TooManyEndmembers (endmembers_xlsx files))] None.
Proof.
  intros H. unfold main.
  destruct (Nat.ltb_spec 2 (len (endmembers_xlsx files))); [reflexivity|lia].
Qed.

Lemma main_parameter_mismatch (files : Files) (_df : DataFrame) :
  (len (endmembers_xlsx files) <= 2)%nat ->
  nth_error (results_xlsx files) 1 = Some _df ->
  length (tl (columns _df))
  <> length (tl (columns (endmembers_xlsx files))) ->
  main minimize_scalar files
  = mkRun [(INFO, Starting); (ERROR, ParameterMismatch)] None.
Proof.
  intros Hlen Hsheet Hcols. unfold main.
  destruct (Nat.ltb_spec 2 (len (endmembers_xlsx files))); [lia|].
  rewrite Hsheet. apply Nat.eqb_neq in Hcols. now rewrite Hcols.
Qed.

End Driver.

Lemma example_files_validated : validated example_files example_samples.
Proof. repeat split. cbv. lia. Qed.

(** The run of the example: the third row is skipped and reported as row
    2, the three others give the three rows written. *)
Lemma example_run :
  log (main probe_minimize example_files)
  = [(INFO, Starting); (ERROR, FailedRow 2 TypeError); (INFO, Completed)]
  /\ option_map (map (fun record => lookup "id"%string record))
       (results_predicted_xlsx (main probe_minimize example_files))
     = Some [Some (CStr "s1"); Some (CStr "s2"); Some (CStr "s4")].
Proof. split; vm_compute; reflexivity. Qed.

Lemma C2_output_is_the_resolved_rows_in_order_witness :
  let run := main probe_minimize example_files in
  let outcomes :=
    map (fun row =>
           resolve_row probe_minimize row (endmembers_xlsx example_files))
        (sample_rows example_samples) in
  results_predicted_xlsx run = Some (successes outcomes)
  /\ exists logged, log run = logged ++ [(INFO, Completed)].
Proof.
  apply (C2_output_is_the_resolved_rows_in_order probe_minimize
           example_files example_samples).
  repeat split. cbv. lia.
Defined.

Lemma C7_diagnostic_names_row_position_witness :
  In (ERROR, FailedRow 2 TypeError) (log (main probe_minimize example_files))
  <-> exists row,
        nth_error (sample_rows example_samples) 2 = Some row
        /\ resolve_row probe_minimize row (endmembers_xlsx example_files)
           = Raise TypeError.
Proof.
  apply (C7_diagnostic_names_row_position probe_minimize
           example_files example_samples 2 TypeError).
  repeat split. cbv. lia.
Defined.

Lemma text_endmembers_fail minimize_scalar (row : Series) :
  exists e, resolve_row minimize_scalar row text_endmembers = Raise e.
Proof.
  unfold resolve_row, _find_optimal_mixture.
  destruct (minimize_scalar _ _) as [res|e]; cbn; eauto.
Qed.

Lemma C10_run_completes_whatever_resolves_witness :
  let run := main probe_minimize text_files in
  (exists logged results,
      run = mkRun (logged ++ [(INFO, Completed)]) (Some results))
  /\ ((forall row, In row (sample_rows one_sample) ->
         exists e,
           resolve_row probe_minimize row (endmembers_xlsx text_files)
           = Raise e) ->
      results_predicted_xlsx run = Some []
      /\ exists logged, log run = logged ++ [(INFO, Completed)]).
Proof.
  apply (C10_run_completes_whatever_resolves probe_minimize
           text_files one_sample).
  repeat split. cbv. lia.
Defined.

Lemma C6_fractions_sum_to_one_witness :
  Fin (309017 # 500000) = nsub (Fin 1) (Fin (381966 # 1000000))
  /\ nadd (Fin (381966 # 1000000)) (Fin (309017 # 500000)) = Fin 1.
Proof.
  eapply (C6_fractions_sum_to_one probe_minimize
            [("sample", CStr "s4"); ("depth", CNum (Fin 2));
             ("width", CNum (Fin (3 # 2))); ("shift", CNum (Fin 0))]%string
            example_endmembers).
  vm_compute. reflexivity.
Defined.

(** C1, at an endmember table of one row.  The run is not stopped: the
    checks pass, the row fails in the loop like any bad row, an empty table
    is written and the run reports completion. *)
Theorem C1_single_endmember_is_not_rejected :
  forall minimize_scalar,
  exists e,
    main minimize_scalar single_endmember_files
    = mkRun [(INFO, Starting); (ERROR, FailedRow 0 e); (INFO, Completed)]
        (Some []).
Proof.
  intros minimize_scalar.
  unfold main, single_endmember_files. cbn.
  unfold resolve_row, _find_optimal_mixture.
  destruct (minimize_scalar _ _) as [res|e]; cbn; eauto.
Qed.

(** C7, counterexample.  With any optimizer, the diagnostic of the failing
    row [S1] shows the position 0 and not the identifier. *)
Lemma C7_diagnostic_does_not_name_identifier :
  ~ exists minimize_scalar, diagnostics_name_row_identifier minimize_scalar.
Proof.
  intros [opt H].
  set (row := [("sample"%string, CStr "S1");
               ("depth"%string, CNum (Fin 1))] : Series).
  destruct (text_endmembers_fail opt row) as [e He].
  assert (Hv : validated text_files one_sample)
    by (repeat split; cbv; lia).
  destruct (H text_files one_sample 0%nat row e Hv eq_refl He)
    as [id [m [Hid [Hlog Hshown]]]].
  cbn in Hid. injection Hid as <-.
  rewrite (main_validated opt text_files one_sample Hv) in Hlog.
  cbn [log text_files endmembers_xlsx] in Hlog.
  change (iterrows one_sample) with [(0%nat, row)] in Hlog.
  cbn [map fst snd] in Hlog. rewrite He in Hlog. cbn in Hlog.
  destruct Hlog as [Hm|[Hm|[Hm|[]]]]; try discriminate.
  injection Hm as <-. cbn in Hshown. destruct Hshown as [Hc|[]].
  discriminate.
Qed.

(* ------------------------------------------------------------------ *)
(** ** A sample that is one of the endmembers: claim C4 *)














(** Against a table of numbers the resolver returns what the optimizer
    found, whatever the sample row is. *)
Lemma find_optimal_mixture_table minimize_scalar (data : Series)
    (idc : label) (id1 id2 : cell) (ls : list label) (e1 e2 : list num)
    (r : num * num * num * Dict) :
  length e1 = length ls -> length e2 = length ls ->
  _find_optimal_mixture minimize_scalar data
    (endmember_table idc ls id1 id2 e1 e2) = Ok r ->
  exists res,
    minimize_scalar
      (fun a1 =>
         _calculate_ssr a1 data (endmember_table idc ls id1 id2 e1 e2))
      (Fin 0, Fin 1) = Ok res
    /\ r = (res_x res, nsub (Fin 1) (res_x res), res_fun res,
            to_dict (labelled ls
                       (mixture (res_x res) (nsub (Fin 1) (res_x res))
                          e1 e2))).
Proof.
  intros H1 H2. unfold _find_optimal_mixture.
  destruct (minimize_scalar _ _) as [res|e]; [|discriminate].
  cbn [bind]. unfold iloc_row_from, iloc_row.
  cbn [endmember_table rows columns nth_error bind].
  cbn [combine iloc_from skipn].
  change (combine ls (map CNum e1)) with (labelled ls e1).
  change (combine ls (map CNum e2)) with (labelled ls e2).
  unfold series_mul_scalar, series_add.
  rewrite !series_scalar_op_labelled. cbn [bind].
  rewrite series_binop_labelled by lengths. cbn [bind].
  intros [= <-]. now exists res.
Qed.







Lemma clamp_bounds (a : Q) : 0 <= clamp a <= 1.
Proof.
  unfold clamp. split.
  - apply Q.min_glb; [apply Q.le_max_r|lra].
  - apply Q.le_min_r.
Qed.




(* ------------------------------------------------------------------ *)
(** ** The objects of a run: claim C9 *)

Module HeapFacts.

Import Heap.

Lemma frames_weaken {A : Type} (n : nat) (m : M A) (Q R : A -> Prop) :
  frames n m Q -> (forall a, Q a -> R a) -> frames n m R.
Proof.
  intros Hm HQ h Hn. destruct (Hm h Hn) as [Hl [Hr Hq]].
  repeat split; auto.
Qed.

Lemma frames_ret {A : Type} (n : nat) (a : A) (Q : A -> Prop) :
  Q a -> frames n (ret a) Q.
Proof.
  intros HQ h Hn. cbn. repeat split; auto. now intros b [= <-].
Qed.

Lemma frames_raise {A : Type} (n : nat) (e : Exception) (Q : A -> Prop) :
  frames n (raise e) Q.
Proof. intros h Hn. cbn. repeat split; auto. discriminate. Qed.

Lemma frames_lift {A : Type} (n : nat) (r : exc A) :
  frames n (lift r) any.
Proof. intros h Hn. cbn. repeat split; auto. Qed.

Lemma frames_load (n : nat) (r : ref) : frames n (load r) any.
Proof.
  intros h Hn. unfold load.
  destruct (nth_error h r); cbn; repeat split; auto.
Qed.

Lemma frames_new (n : nat) (o : object) :
  frames n (new o) (fun r => (n <= r)%nat).
Proof.
  intros h Hn. unfold new. cbn [fst snd]. repeat split.
  - rewrite length_app. lia.
  - intros r Hr. apply nth_error_app1. lia.
  - now intros a [= <-].
Qed.

Lemma length_update (h : heap) (r : ref) (o : object) :
  length (update h r o) = length h.
Proof.
  revert r. induction h as [|x h IH]; intros [|r]; cbn; auto.
Qed.

Lemma nth_error_update_other (h : heap) (r r' : ref) (o : object) :
  r' <> r -> nth_error (update h r o) r' = nth_error h r'.
Proof.
  revert r r'. induction h as [|x h IH]; intros [|r] [|r'] H; cbn; auto;
    contradiction.
Qed.

Lemma frames_store (n : nat) (r : ref) (o : object) :
  (n <= r)%nat -> frames n (store r o) any.
Proof.
  intros Hr h Hn. unfold store. cbn [fst snd]. repeat split.
  - rewrite length_update. lia.
  - intros r' Hr'. apply nth_error_update_other. lia.
Qed.

Lemma frames_bind {A B : Type} (n : nat) (m : M A) (k : A -> M B)
    (Q : A -> Prop) (R : B -> Prop) :
  frames n m Q -> (forall a, Q a -> frames n (k a) R) ->
  frames n (bind m k) R.
Proof.
  intros Hm Hk h Hn. destruct (Hm h Hn) as [Hl [Hr Hq]].
  unfold bind. destruct (m h) as [h' [a|e]]; cbn [fst snd] in *.
  - destruct (Hk a (Hq a eq_refl) h' ltac:(lia)) as [Hl' [Hr' Hq']].
    repeat split; auto; [lia|].
    intros r Hlt. rewrite Hr' by assumption. now apply Hr.
  - repeat split; auto. discriminate.
Qed.

Lemma frames_try {A : Type} (n : nat) (m : M A) (Q : A -> Prop) :
  frames n m Q -> frames n (try_ m) any.
Proof.
  intros Hm h Hn. destruct (Hm h Hn) as [Hl [Hr _]].
  unfold try_. cbn [fst snd]. repeat split; auto.
Qed.

Lemma frames_for_each {A : Type} (n : nat) (items : list A)
    (body : A -> M unit) :
  (forall x, frames n (body x) any) -> frames n (for_each items body) any.
Proof.
  intros Hb. induction items as [|x items IH]; cbn [for_each].
  - now apply frames_ret.
  - eapply frames_bind; [apply Hb|]. intros _ _. exact IH.
Qed.

(** The rules above, applied as far as they go. *)
Ltac frame :=
  repeat first
    [ apply frames_raise
    | apply frames_lift
    | apply frames_load
    | apply frames_ret; exact I
    | eapply frames_weaken; [apply frames_new|intros; exact I]
    | eapply frames_bind; [|intros ? _]
    | match goal with
      | |- frames _ (match ?o with _ => _ end) _ => destruct o
      end ].

Lemma frames_load_series (n : nat) (r : ref) :
  frames n (load_series r) any.
Proof. unfold load_series. frame. Qed.

Lemma frames_load_frame (n : nat) (r : ref) : frames n (load_frame r) any.
Proof. unfold load_frame. frame. Qed.

Lemma frames_load_bools (n : nat) (r : ref) : frames n (load_bools r) any.
Proof. unfold load_bools. frame. Qed.

Lemma frames_load_array (n : nat) (r : ref) : frames n (load_array r) any.
Proof. unfold load_array. frame. Qed.

Lemma frames_load_dict (n : nat) (r : ref) : frames n (load_dict r) any.
Proof. unfold load_dict. frame. Qed.

Lemma frames_series_op1 (n : nat) f (r : ref) :
  frames n (series_op1 f r) any.
Proof. unfold series_op1. frame. Qed.

Lemma frames_series_op2 (n : nat) f (r1 r2 : ref) :
  frames n (series_op2 f r1 r2) any.
Proof. unfold series_op2. frame. Qed.

Lemma frames_frame_iloc (n : nat) (df : ref) (i k : nat) :
  frames n (frame_iloc df i k) any.
Proof. unfold frame_iloc. frame. Qed.

Lemma frames_series_gt (n : nat) (r : ref) (c : num) :
  frames n (series_gt r c) any.
Proof. unfold series_gt. frame. Qed.

Lemma frames_array_where (n : nat) (cond x : ref) (y : num) :
  frames n (array_where cond x y) any.
Proof. unfold array_where. frame. Qed.

Lemma frames_array_square (n : nat) (a : ref) :
  frames n (array_square a) any.
Proof. unfold array_square. frame. Qed.

Lemma frames_array_sum (n : nat) (a : ref) : frames n (array_sum a) any.
Proof. unfold array_sum. frame. Qed.

Lemma frames_append (n : nat) (results d : ref) :
  (n <= results)%nat -> frames n (append results d) any.
Proof.
  intros H. unfold append. frame. now apply frames_store.
Qed.

Ltac frame_ops :=
  repeat first
    [ apply frames_series_op1
    | apply frames_series_op2
    | apply frames_frame_iloc
    | apply frames_series_gt
    | apply frames_array_where
    | apply frames_array_square
    | apply frames_array_sum
    | apply frames_load_series
    | apply frames_load_dict
    | apply frames_load_frame
    | eapply frames_bind; [|intros ? _] ].

Lemma frames_calculate_ssr (n : nat) (a1 : num) (data endmembers_df : ref) :
  frames n (_calculate_ssr a1 data endmembers_df) any.
Proof. unfold _calculate_ssr. cbv zeta. frame_ops. Qed.

Lemma frames_probe_minimize (n : nat) (f : num -> M num)
    (bounds : num * num) :
  (forall a, frames n (f a) any) -> frames n (probe_minimize f bounds) any.
Proof.
  intros Hf. unfold probe_minimize. cbv beta zeta.
  repeat first [ apply Hf
               | apply (frames_ret n _ any); exact I
               | eapply frames_bind; [|intros ? _] ].
Qed.

Section Frame.

Variable minimize_scalar :
  (num -> M num) -> num * num -> M OptimizeResult.

(** SciPy's optimizer holds no reference to the tables: it touches the
    store by calling the objective only. *)
Hypothesis minimize_scalar_frames :
  forall (n : nat) (f : num -> M num) (bounds : num * num),
    (forall a, frames n (f a) any) ->
    frames n (minimize_scalar f bounds) any.

Lemma frames_find_optimal_mixture (n : nat) (data endmembers_df : ref) :
  frames n (_find_optimal_mixture minimize_scalar data endmembers_df) any.
Proof.
  unfold _find_optimal_mixture.
  eapply frames_bind;
    [apply minimize_scalar_frames; intros a; apply frames_calculate_ssr|].
  intros result _. cbv zeta.
  eapply frames_bind; [apply frames_frame_iloc|]. intros p1 _.
  eapply frames_bind; [apply frames_frame_iloc|]. intros p2 _.
  eapply frames_bind; [apply frames_series_op1|]. intros m1 _.
  eapply frames_bind; [apply frames_series_op1|]. intros m2 _.
  eapply frames_bind; [apply frames_series_op2|]. intros p _.
  eapply frames_bind; [apply frames_load_series|]. intros s _.
  eapply frames_bind; [apply frames_new|]. intros d _.
  now apply frames_ret.
Qed.

Lemma frames_process_rows (n : nat) (_endmembers _df : ref) :
  frames n (process_rows minimize_scalar _endmembers _df) any.
Proof.
  unfold process_rows.
  eapply frames_bind; [apply frames_new|]. intros results Hresults.
  eapply frames_bind; [apply frames_load_frame|]. intros df _.
  eapply frames_bind; [|intros; apply frames_ret; exact I].
  apply frames_for_each. intros [index row_value]. cbn [snd].
  eapply frames_bind; [apply frames_new|]. intros row _.
  eapply frames_bind; [|intros; apply frames_ret; exact I].
  eapply frames_try.
  eapply frames_bind; [apply frames_find_optimal_mixture|].
  intros [[[a1 a2] ssr] mixture] _.
  eapply frames_bind; [apply frames_load_series|]. intros s _.
  eapply frames_bind; [apply frames_lift|]. intros row_id _.
  eapply frames_bind; [apply frames_load_dict|]. intros items _.
  eapply frames_bind; [apply frames_new|]. intros _loc_results _.
  now apply frames_append.
Qed.

(** C9.  Neither [_calculate_ssr] nor [_find_optimal_mixture] changes
    an object that exists when it is called: the sample row and the
    endmember table are after the call what they were before it; and
    the loop of [main], which fills the list [results], leaves the
    endmember table (and the sample table) as it found them. *)
Theorem C9_inputs_are_not_mutated
    (a1 : num) (data endmembers_df _df : ref) (h : heap) :
  (data < length h)%nat -> (endmembers_df < length h)%nat ->
  (_df < length h)%nat ->
  let after_ssr := fst (_calculate_ssr a1 data endmembers_df h) in
  let after_resolve :=
    fst (_find_optimal_mixture minimize_scalar data endmembers_df h) in
  let after_loop :=
    fst (process_rows minimize_scalar endmembers_df _df h) in
  (forall r, (r < length h)%nat ->
     nth_error after_ssr r = nth_error h r
     /\ nth_error after_resolve r = nth_error h r
     /\ nth_error after_loop r = nth_error h r)
  /\ nth_error after_ssr data = nth_error h data
  /\ nth_error after_ssr endmembers_df = nth_error h endmembers_df
  /\ nth_error after_resolve data = nth_error h data
  /\ nth_error after_resolve endmembers_df = nth_error h endmembers_df
  /\ nth_error after_loop endmembers_df = nth_error h endmembers_df.
Proof.
  intros Hd He Hs after_ssr after_resolve after_loop.
  assert (Hall : forall r, (r < length h)%nat ->
            nth_error after_ssr r = nth_error h r
            /\ nth_error after_resolve r = nth_error h r
            /\ nth_error after_loop r = nth_error h r).
  { intros r Hr. subst after_ssr after_resolve after_loop.
    repeat split.
    - now apply (frames_calculate_ssr (length h) a1 data endmembers_df h).
    - now apply (frames_find_optimal_mixture (length h) data
                   endmembers_df h).
    - now apply (frames_process_rows (length h) endmembers_df _df h). }
  split; [exact Hall|].
  repeat split; now apply Hall.
Qed.

End Frame.

End HeapFacts.

Lemma C9_inputs_are_not_mutated_witness :
  let h := example_heap in
  let after_ssr := fst (Heap._calculate_ssr (Fin (1 # 2)) 2%nat 0%nat h) in
  let after_resolve :=
    fst (Heap._find_optimal_mixture Heap.probe_minimize 2%nat 0%nat h) in
  let after_loop := fst (Heap.process_rows Heap.probe_minimize 0%nat 1%nat h) in
  (forall r, (r < length h)%nat ->
     nth_error after_ssr r = nth_error h r
     /\ nth_error after_resolve r = nth_error h r
     /\ nth_error after_loop r = nth_error h r)
  /\ nth_error after_ssr 2%nat = nth_error h 2%nat
  /\ nth_error after_ssr 0%nat = nth_error h 0%nat
  /\ nth_error after_resolve 2%nat = nth_error h 2%nat
  /\ nth_error after_resolve 0%nat = nth_error h 0%nat
  /\ nth_error after_loop 0%nat = nth_error h 0%nat.
Proof.
  apply (HeapFacts.C9_inputs_are_not_mutated Heap.probe_minimize
           HeapFacts.frames_probe_minimize (Fin (1 # 2)) 2%nat 0%nat 1%nat
           example_heap); cbv; lia.
Defined.

(** *** The two renditions compute the same value *)

Lemma lookup_old (h t : Heap.heap) (r : Heap.ref) (o : Heap.object) :
  nth_error h r = Some o -> nth_error (h ++ t) r = Some o.
Proof.
  intros H. rewrite nth_error_app1; [exact H|].
  apply nth_error_Some. congruence.
Qed.

Lemma lookup_new (h : Heap.heap) (o : Heap.object) :
  nth_error (h ++ [o]) (length h) = Some o.
Proof. rewrite nth_error_app2, Nat.sub_diag by lia. reflexivity. Qed.

Ltac lookup :=
  first [ eassumption | apply lookup_new | apply lookup_old; lookup ].

Lemma run_bind {A B : Type} (m : Heap.M A) (k : A -> Heap.M B)
    (h : Heap.heap) :
  Heap.bind m k h
  = match m h with
    | (h', Ok a) => k a h'
    | (h', Raise e) => (h', Raise e)
    end.
Proof. reflexivity. Qed.

Lemma run_series_op1 f (r : Heap.ref) (h : Heap.heap) (s : Series) :
  nth_error h r = Some (Heap.OSeries s) ->
  Heap.series_op1 f r h
  = match f s with
    | Ok v => (h ++ [Heap.OSeries v], Ok (length h))
    | Raise e => (h, Raise e)
    end.
Proof.
  intros H. unfold Heap.series_op1, Heap.load_series, Heap.bind, Heap.load.
  rewrite H. cbn. now destruct (f s).
Qed.

Lemma run_series_op2 f (r1 r2 : Heap.ref) (h : Heap.heap) (s1 s2 : Series) :
  nth_error h r1 = Some (Heap.OSeries s1) ->
  nth_error h r2 = Some (Heap.OSeries s2) ->
  Heap.series_op2 f r1 r2 h
  = match f s1 s2 with
    | Ok v => (h ++ [Heap.OSeries v], Ok (length h))
    | Raise e => (h, Raise e)
    end.
Proof.
  intros H1 H2.
  unfold Heap.series_op2, Heap.load_series, Heap.bind, Heap.load.
  rewrite H1. cbn. rewrite H2. cbn. now destruct (f s1 s2).
Qed.

Lemma run_frame_iloc (df : Heap.ref) (i k : nat) (h : Heap.heap)
    (d : DataFrame) :
  nth_error h df = Some (Heap.OFrame d) ->
  Heap.frame_iloc df i k h
  = match iloc_row_from d i k with
    | Ok v => (h ++ [Heap.OSeries v], Ok (length h))
    | Raise e => (h, Raise e)
    end.
Proof.
  intros H. unfold Heap.frame_iloc, Heap.load_frame, Heap.bind, Heap.load.
  rewrite H. cbn. now destruct (iloc_row_from d i k).
Qed.

Lemma run_series_gt (r : Heap.ref) (c : num) (h : Heap.heap) (s : Series) :
  nth_error h r = Some (Heap.OSeries s) ->
  Heap.series_gt r c h
  = match series_gt_scalar s c with
    | Ok v => (h ++ [Heap.OBools v], Ok (length h))
    | Raise e => (h, Raise e)
    end.
Proof.
  intros H. unfold Heap.series_gt, Heap.load_series, Heap.bind, Heap.load.
  rewrite H. cbn. now destruct (series_gt_scalar s c).
Qed.

Lemma run_array_where (cond x : Heap.ref) (y : num) (h : Heap.heap)
    (c : list bool) (s : Series) :
  nth_error h cond = Some (Heap.OBools c) ->
  nth_error h x = Some (Heap.OSeries s) ->
  Heap.array_where cond x y h
  = match np_where c (values s) y with
    | Ok v => (h ++ [Heap.OArray v], Ok (length h))
    | Raise e => (h, Raise e)
    end.
Proof.
  intros H1 H2.
  unfold Heap.array_where, Heap.load_bools, Heap.load_series, Heap.bind,
    Heap.load.
  rewrite H1. cbn. rewrite H2. cbn. now destruct (np_where c (values s) y).
Qed.

Lemma run_array_square (a : Heap.ref) (h : Heap.heap) (x : list cell) :
  nth_error h a = Some (Heap.OArray x) ->
  Heap.array_square a h
  = match np_square x with
    | Ok v => (h ++ [Heap.OArray v], Ok (length h))
    | Raise e => (h, Raise e)
    end.
Proof.
  intros H. unfold Heap.array_square, Heap.load_array, Heap.bind, Heap.load.
  rewrite H. cbn. now destruct (np_square x).
Qed.

Lemma run_array_sum (a : Heap.ref) (h : Heap.heap) (x : list cell) :
  nth_error h a = Some (Heap.OArray x) ->
  Heap.array_sum a h = (h, np_sum x).
Proof.
  intros H. unfold Heap.array_sum, Heap.load_array, Heap.bind, Heap.load.
  rewrite H. cbn. now destruct (np_sum x).
Qed.

(** One operation of the store rendition against the same operation of
    the first one: both raise, or both go on. *)
Ltac run_with lem :=
  rewrite run_bind; erewrite lem by lookup;
  match goal with
  | |- context [match ?r with Ok _ => _ | Raise _ => _ end] =>
      destruct r; cbn [bind snd]; [|reflexivity]
  end.

Lemma calculate_ssr_agrees (a1 : num) (data endmembers_df : Heap.ref)
    (h : Heap.heap) (d : Series) (E : DataFrame) :
  nth_error h data = Some (Heap.OSeries d) ->
  nth_error h endmembers_df = Some (Heap.OFrame E) ->
  snd (Heap._calculate_ssr a1 data endmembers_df h) = _calculate_ssr a1 d E.
Proof.
  intros Hd He. unfold Heap._calculate_ssr, _calculate_ssr. cbv zeta.
  unfold sum_squared_residuals.
  run_with run_frame_iloc.
  run_with run_frame_iloc.
  rewrite run_bind, (run_series_op1 _ _ _ d) by lookup.
  run_with run_series_op1.
  run_with run_series_op1.
  run_with run_series_op2.
  run_with run_series_op2.
  run_with run_series_op1.
  run_with run_series_op1.
  run_with run_series_gt.
  run_with run_series_op2.
  run_with run_series_op2.
  run_with run_array_where.
  run_with run_array_square.
  erewrite run_array_sum by lookup. reflexivity.
Qed.

(* ------------------------------------------------------------------ *)
(** ** Further properties of [_calculate_ssr] *)

Lemma nmul_Qeq (x : num) (a a' : Q) :
  a == a' -> nmul x (Fin a) = nmul x (Fin a').
Proof.
  intros H. destruct x as [q| | |]; cbn [nmul]; try reflexivity.
  - apply fin_eq. now rewrite H.
  - now rewrite H.
  - now rewrite H.
Qed.

Lemma nsub_Qeq (x : num) (a a' : Q) :
  a == a' -> nsub x (Fin a) = nsub x (Fin a').
Proof.
  intros H. destruct x as [q| | |]; cbn [nsub]; try reflexivity.
  apply fin_eq. now rewrite H.
Qed.

Lemma series_scalar_op_ext op (s : Series) (c c' : num) :
  (forall x, op x c = op x c') ->
  series_scalar_op op s c = series_scalar_op op s c'.
Proof.
  intros H. unfold series_scalar_op.
  induction s as [|[l [x|t]] s IH]; cbn [mapM cell_arith_scalar bind];
    [reflexivity| |reflexivity].
  now rewrite H, IH.
Qed.

(** The objective reads the fraction through [np.clip] only. *)
Lemma calculate_ssr_clip (a a' : num) (c c' : Q) (data : Series)
    (E : DataFrame) :
  np_clip a (Fin 0) (Fin 1) = Fin c -> np_clip a' (Fin 0) (Fin 1) = Fin c' ->
  c == c' ->
  _calculate_ssr a data E = _calculate_ssr a' data E.
Proof.
  intros Ha Ha' Hc. unfold _calculate_ssr. cbv zeta. rewrite Ha, Ha'.
  destruct (iloc_row_from E 0 1) as [p1|]; [|reflexivity].
  destruct (iloc_row_from E 1 1) as [p2|]; [|reflexivity].
  cbn [bind]. unfold series_mul_scalar.
  rewrite (series_scalar_op_ext nmul p1 (Fin c) (Fin c'))
    by (intros x; now apply nmul_Qeq).
  rewrite (nsub_Qeq (Fin 1) c c' Hc). reflexivity.
Qed.

(** X1.  The objective is flat outside the bounds: a candidate fraction of
    1 or more gives the value at 1 and a fraction of 0 or less the value at
    0, whatever the row and the table hold (also when they make it raise). *)
Theorem objective_is_flat_outside_bounds
    (a : Q) (data : Series) (E : DataFrame) :
  (1 <= a -> _calculate_ssr (Fin a) data E = _calculate_ssr (Fin 1) data E)
  /\ (a <= 0 ->
      _calculate_ssr (Fin a) data E = _calculate_ssr (Fin 0) data E)
  /\ _calculate_ssr PInf data E = _calculate_ssr (Fin 1) data E
  /\ _calculate_ssr NInf data E = _calculate_ssr (Fin 0) data E.
Proof.
  repeat split.
  - intros H. destruct (np_clip_finite a) as [c [Hc Hcl]].
    apply (calculate_ssr_clip (Fin a) (Fin 1) c 1 data E Hc eq_refl).
    rewrite Hcl. unfold clamp. rewrite Q.min_r; [reflexivity|].
    apply Q.max_le_iff. now left.
  - intros H. destruct (np_clip_finite a) as [c [Hc Hcl]].
    apply (calculate_ssr_clip (Fin a) (Fin 0) c 0 data E Hc eq_refl).
    rewrite Hcl. unfold clamp. rewrite (Q.max_r a 0) by assumption.
    now rewrite Q.min_l.
Qed.

Lemma nadd_canonical (x y : num) : canonical (nadd x y).
Proof.
  destruct x as [a| | |], y as [b| | |]; cbn; auto. apply Qred_idem.
Qed.

Lemma nadd_zero_r (x : num) : canonical x -> nadd x (Fin 0) = x.
Proof.
  destruct x as [a| | |]; cbn [canonical nadd]; intros H; try reflexivity.
  unfold fin. rewrite <- H at 2. f_equal. apply Qred_complete. ring.
Qed.

Lemma fold_nadd_canonical (l : list num) (acc : num) :
  canonical acc -> canonical (fold_left nadd l acc).
Proof.
  revert acc. induction l as [|x l IH]; intros acc H; cbn [fold_left];
    [exact H|].
  apply IH, nadd_canonical.
Qed.

Lemma fold_nadd_skip_zero (l l' : list num) (acc : num) :
  canonical acc ->
  fold_left nadd (l ++ Fin 0 :: l') acc = fold_left nadd (l ++ l') acc.
Proof.
  intros H. rewrite !fold_left_app. cbn [fold_left].
  now rewrite nadd_zero_r by now apply fold_nadd_canonical.
Qed.

Lemma pointwise_app (f : num -> num -> num) (xs xs' ys ys' : list num) :
  length xs = length ys ->
  pointwise f (xs ++ xs') (ys ++ ys')
  = pointwise f xs ys ++ pointwise f xs' ys'.
Proof.
  unfold pointwise. revert ys.
  induction xs as [|x xs IH]; intros [|y ys]; cbn [length]; try discriminate;
    [reflexivity|].
  intros H. cbn [app combine map]. f_equal. apply IH. lia.
Qed.

Lemma mixture_app (a1 a2 : num) (e1 e1' e2 e2' : list num) :
  length e1 = length e2 ->
  mixture a1 a2 (e1 ++ e1') (e2 ++ e2')
  = mixture a1 a2 e1 e2 ++ mixture a1 a2 e1' e2'.
Proof.
  intros H. unfold mixture. rewrite !map_app.
  apply pointwise_app. now rewrite !length_map.
Qed.

Lemma length_mixture (a1 a2 : num) (e1 e2 : list num) :
  length e1 = length e2 -> length (mixture a1 a2 e1 e2) = length e1.
Proof. intros H. unfold mixture. lengths. Qed.

Lemma squared_residual_nan_l (p : num) : squared_residual NaN p = Fin 0.
Proof. reflexivity. Qed.

Lemma squared_residual_nan_r (d : num) : squared_residual d NaN = Fin 0.
Proof. now destruct d. Qed.

(** X2.  A missing value (nan) in a feature of the sample row or of an
    endmember does not spoil the sum: the comparison [|nan| > epsilon] is
    false, the feature contributes 0, and the result is the one of the
    tables without that feature. *)
Theorem missing_value_contributes_zero
    (a1 : num) (idl : label) (idv : cell) (idc : label) (id1 id2 : cell)
    (ls ls' : list label) (l : label)
    (d d' e1 e1' e2 e2' : list num) (di x y : num) :
  length d = length ls -> length e1 = length ls -> length e2 = length ls ->
  length d' = length ls' -> length e1' = length ls' ->
  length e2' = length ls' ->
  di = NaN \/ x = NaN \/ y = NaN ->
  _calculate_ssr a1
    (sample_row idl idv (ls ++ l :: ls') (d ++ di :: d'))
    (endmember_table idc (ls ++ l :: ls') id1 id2
       (e1 ++ x :: e1') (e2 ++ y :: e2'))
  = _calculate_ssr a1
      (sample_row idl idv (ls ++ ls') (d ++ d'))
      (endmember_table idc (ls ++ ls') id1 id2 (e1 ++ e1') (e2 ++ e2')).
Proof.
  intros Hd H1 H2 Hd' H1' H2' Hnan.
  rewrite !calculate_ssr_pointwise
    by (rewrite !length_app; cbn [length]; lia).
  cbv zeta. f_equal.
  set (a := np_clip a1 (Fin 0) (Fin 1)). set (a2 := nsub (Fin 1) a).
  rewrite !mixture_app by lia.
  rewrite !pointwise_app by (rewrite length_mixture; lia).
  change (mixture a a2 (x :: e1') (y :: e2'))
    with (nadd (nmul x a) (nmul y a2) :: mixture a a2 e1' e2').
  change (pointwise squared_residual (di :: d')
            (nadd (nmul x a) (nmul y a2) :: mixture a a2 e1' e2'))
    with (squared_residual di (nadd (nmul x a) (nmul y a2))
          :: pointwise squared_residual d' (mixture a a2 e1' e2')).
  assert (Hz : squared_residual di (nadd (nmul x a) (nmul y a2)) = Fin 0).
  { destruct Hnan as [->|[->| ->]].
    - apply squared_residual_nan_l.
    - apply squared_residual_nan_r.
    - replace (nadd (nmul x a) (nmul NaN a2)) with NaN
        by (now destruct (nmul x a)).
      apply squared_residual_nan_r. }
  rewrite Hz. apply fold_nadd_skip_zero. reflexivity.
Qed.

Lemma missing_value_contributes_zero_witness :
  _calculate_ssr (Fin (1 # 4))
    (sample_row "sample"%string (CStr "s1") ["f1"; "f2"; "f3"]%string
       [Fin 2; NaN; Fin 5])
    (endmember_table "endmember"%string ["f1"; "f2"; "f3"]%string
       (CStr "e1") (CStr "e2") [Fin 1; Fin 7; Fin 4] [Fin 3; Fin 9; Fin 8])
  = _calculate_ssr (Fin (1 # 4))
      (sample_row "sample"%string (CStr "s1") ["f1"; "f3"]%string
         [Fin 2; Fin 5])
      (endmember_table "endmember"%string ["f1"; "f3"]%string
         (CStr "e1") (CStr "e2") [Fin 1; Fin 4] [Fin 3; Fin 8]).
Proof.
  apply (missing_value_contributes_zero (Fin (1 # 4)) "sample"%string
           (CStr "s1") "endmember"%string (CStr "e1") (CStr "e2")
           ["f1"%string] ["f3"%string] "f2"%string
           [Fin 2] [Fin 5] [Fin 1] [Fin 4] [Fin 3] [Fin 8]
           NaN (Fin 7) (Fin 9)); try reflexivity.
  now left.
Defined.

Lemma pointwise_all_nan (ds : list num) (ps : list num) :
  Forall (fun p => p = NaN) ps ->
  fold_left nadd (pointwise squared_residual ds ps) (Fin 0) = Fin 0.
Proof.
  intros H. revert ds. unfold pointwise.
  induction H as [|p ps Hp _ IH]; intros [|d ds]; cbn [combine map fold_left];
    try reflexivity.
  cbn [fst snd]. subst p. rewrite squared_residual_nan_r.
  change (nadd (Fin 0) (Fin 0)) with (Fin 0). apply IH.
Qed.

(** X3.  A nan candidate fraction is not refused: on tables of numbers the
    prediction is nan in every feature, every residual is dropped, and the
    objective is 0, the value of a perfect fit. *)
Theorem nan_fraction_gives_zero
    (idl : label) (idv : cell) (idc : label) (id1 id2 : cell)
    (ls : list label) (d e1 e2 : list num) :
  length d = length ls -> length e1 = length ls -> length e2 = length ls ->
  _calculate_ssr NaN (sample_row idl idv ls d)
    (endmember_table idc ls id1 id2 e1 e2)
  = Ok (Fin 0).
Proof.
  intros Hd H1 H2. rewrite calculate_ssr_pointwise by lia.
  cbv zeta. f_equal. apply pointwise_all_nan.
  change (np_clip NaN (Fin 0) (Fin 1)) with NaN.
  change (nsub (Fin 1) NaN) with NaN.
  unfold mixture, pointwise. apply Forall_forall. intros p Hp.
  apply in_map_iff in Hp as [[u v] [<- Hin]]. cbn [fst snd].
  apply in_combine_l in Hin. apply in_map_iff in Hin as [x [<- _]].
  now destruct x.
Qed.

Lemma nan_fraction_gives_zero_witness :
  _calculate_ssr NaN
    (sample_row "sample"%string (CStr "s1") ["f1"; "f2"]%string
       [Fin 2; Fin 5])
    (endmember_table "endmember"%string ["f1"; "f2"]%string
       (CStr "e1") (CStr "e2") [Fin 1; Fin 4] [Fin 3; Fin 8])
  = Ok (Fin 0).
Proof.
  apply (nan_fraction_gives_zero "sample"%string (CStr "s1")
           "endmember"%string (CStr "e1") (CStr "e2") ["f1"; "f2"]%string
           [Fin 2; Fin 5] [Fin 1; Fin 4] [Fin 3; Fin 8]); reflexivity.
Defined.

(* ------------------------------------------------------------------ *)
(** ** Texts where numbers should be *)

Lemma series_scalar_op_text op (s : Series) (c : num) (l : label)
    (t : string) :
  In (l, CStr t) s -> series_scalar_op op s c = Raise TypeError.
Proof.
  unfold series_scalar_op.
  induction s as [|[l' [x|t']] s IH]; intros H;
    cbn [mapM cell_arith_scalar bind]; [destruct H| |reflexivity].
  destruct H as [H|H]; [discriminate|]. now rewrite (IH H).
Qed.

Lemma series_scalar_op_cases op (s : Series) (c : num) :
  (exists v, series_scalar_op op s c = Ok v)
  \/ series_scalar_op op s c = Raise TypeError.
Proof.
  unfold series_scalar_op.
  induction s as [|[l [x|t]] s IH]; cbn [mapM cell_arith_scalar bind].
  - left. now eexists.
  - destruct IH as [[v ->]| ->]; [left; now eexists|now right].
  - now right.
Qed.

(** X4.  A text in a feature cell of either endmember makes the objective
    raise TypeError for every fraction and every sample row, so with any
    optimizer no row resolves against such a table. *)
Theorem text_in_endmember_raises
    (E : DataFrame) (p1 p2 : Series) (l : label) (t : string) :
  iloc_row_from E 0 1 = Ok p1 -> iloc_row_from E 1 1 = Ok p2 ->
  In (l, CStr t) p1 \/ In (l, CStr t) p2 ->
  (forall a1 data, _calculate_ssr a1 data E = Raise TypeError)
  /\ (forall minimize_scalar data,
         exists e, _find_optimal_mixture minimize_scalar data E = Raise e).
Proof.
  intros H1 H2 Htext.
  assert (Hmul : forall c c',
            (m1 <- series_mul_scalar p1 c ;;
             m2 <- series_mul_scalar p2 c' ;; Ok (m1, m2))
            = Raise TypeError).
  { intros c c'. unfold series_mul_scalar. destruct Htext as [H|H].
    - now rewrite (series_scalar_op_text nmul p1 c l t H).
    - rewrite (series_scalar_op_text nmul p2 c' l t H).
      now destruct (series_scalar_op_cases nmul p1 c) as [[v ->]| ->]. }
  split.
  - intros a1 data. unfold _calculate_ssr. cbv zeta. rewrite H1, H2.
    cbn [bind].
    specialize (Hmul (np_clip a1 (Fin 0) (Fin 1))
                  (nsub (Fin 1) (np_clip a1 (Fin 0) (Fin 1)))).
    destruct (series_mul_scalar p1 _) as [m1|e1]; cbn [bind] in *;
      [|congruence].
    destruct (series_mul_scalar p2 _) as [m2|e2]; cbn [bind] in *;
      [discriminate|congruence].
  - intros opt data. unfold _find_optimal_mixture.
    destruct (opt _ _) as [res|e]; cbn [bind]; [|now eexists].
    rewrite H1, H2. cbn [bind].
    specialize (Hmul (res_x res) (nsub (Fin 1) (res_x res))).
    destruct (series_mul_scalar p1 _) as [m1|e1]; cbn [bind] in *;
      [|now eexists].
    destruct (series_mul_scalar p2 _) as [m2|e2]; cbn [bind] in *;
      [discriminate|now eexists].
Qed.

Lemma text_in_endmember_raises_witness :
  (forall a1 data, _calculate_ssr a1 data text_endmembers = Raise TypeError)
  /\ (forall minimize_scalar data,
         exists e,
           _find_optimal_mixture minimize_scalar data text_endmembers
           = Raise e).
Proof.
  apply (text_in_endmember_raises text_endmembers
           [("depth"%string, CStr "bad")]
           [("depth"%string, CNum (Fin 2))] "depth"%string "bad"%string);
    [reflexivity|reflexivity|].
  left. now left.
Defined.

Lemma index_combine (ls : list label) (cells : list cell) :
  length cells = length ls -> index (combine ls cells) = ls.
Proof.
  unfold index. revert cells.
  induction ls as [|l ls IH]; intros [|c cells]; cbn [length combine map];
    try discriminate; [reflexivity|].
  intros H. cbn [fst]. f_equal. apply IH. lia.
Qed.

Lemma zip_arith_text op sop (ls : list label) (cells : list cell)
    (qs : list Q) :
  length cells = length ls -> length qs = length ls ->
  (exists t, In (CStr t) cells) ->
  zip_arith (cell_arith op sop) (combine ls cells) (labelled ls (map Fin qs))
  = Raise TypeError.
Proof.
  unfold labelled. revert cells qs.
  induction ls as [|l ls IH]; intros [|c cells] [|q qs]; cbn [length];
    try discriminate.
  - intros _ _ [t []].
  - intros Hc Hq [t Ht]. cbn [map combine zip_arith].
    destruct c as [x|s]; cbn [cell_arith bind]; [|reflexivity].
    rewrite IH; [reflexivity|lia|lia|].
    destruct Ht as [Ht|Ht]; [discriminate|now exists t].
Qed.

Lemma mixture_finite (a a2 : Q) (e1 e2 : list Q) :
  exists ps, mixture (Fin a) (Fin a2) (map Fin e1) (map Fin e2) = map Fin ps
             /\ length ps = Nat.min (length e1) (length e2).
Proof.
  unfold mixture, pointwise. revert e2.
  induction e1 as [|x e1 IH]; intros [|y e2]; cbn [map combine length];
    try (now exists []).
  destruct (IH e2) as [ps [Hps Hlen]].
  exists (Qred (Qred (x * a) + Qred (y * a2)) :: ps).
  cbn [map fst snd length]. rewrite Hps. split; [reflexivity|].
  cbn [Nat.min]. now rewrite Hlen.
Qed.

(** Against a table of numbers the objective is the sum of lines 43 to 51
    for the data and the mixture of the two endmembers. *)
Lemma calculate_ssr_predicted (a1 : num) (data : Series) (idc : label)
    (id1 id2 : cell) (ls : list label) (e1 e2 : list num) :
  length e1 = length ls -> length e2 = length ls ->
  _calculate_ssr a1 data (endmember_table idc ls id1 id2 e1 e2)
  = sum_squared_residuals (iloc_from data 1)
      (labelled ls
         (mixture (np_clip a1 (Fin 0) (Fin 1))
            (nsub (Fin 1) (np_clip a1 (Fin 0) (Fin 1))) e1 e2)).
Proof.
  intros H1 H2. unfold _calculate_ssr, iloc_row_from, iloc_row.
  cbv zeta. cbn [endmember_table rows columns nth_error bind].
  cbn [combine iloc_from skipn].
  change (combine ls (map CNum e1)) with (labelled ls e1).
  change (combine ls (map CNum e2)) with (labelled ls e2).
  unfold series_mul_scalar, series_add.
  rewrite !series_scalar_op_labelled. cbn [bind].
  rewrite series_binop_labelled by lengths. reflexivity.
Qed.

(** X5.  A text in a feature cell of the sample row, against endmembers
    that are finite numbers, makes the objective raise TypeError at every
    finite fraction: the row cannot be evaluated anywhere. *)
Theorem text_in_sample_raises
    (a : Q) (idl : label) (idv : cell) (idc : label) (id1 id2 : cell)
    (ls : list label) (cells : list cell) (e1 e2 : list Q) :
  length cells = length ls -> length e1 = length ls ->
  length e2 = length ls ->
  (exists t, In (CStr t) cells) ->
  _calculate_ssr (Fin a) ((idl, idv) :: combine ls cells)
    (endmember_table idc ls id1 id2 (map Fin e1) (map Fin e2))
  = Raise TypeError.
Proof.
  intros Hc H1 H2 Ht.
  rewrite calculate_ssr_predicted by (rewrite length_map; assumption).
  destruct (np_clip_finite a) as [c [-> _]].
  change (nsub (Fin 1) (Fin c)) with (Fin (Qred (1 - c))).
  destruct (mixture_finite c (Qred (1 - c)) e1 e2) as [ps [-> Hlen]].
  cbn [iloc_from skipn].
  unfold sum_squared_residuals, series_add, series_binop, align.
  rewrite index_combine by assumption.
  rewrite index_labelled by (rewrite length_map; lia).
  rewrite index_equals_refl.
  rewrite zip_arith_text by (try assumption; lia). reflexivity.
Qed.

Lemma text_in_sample_raises_witness :
  _calculate_ssr (Fin (1 # 2))
    (("sample", CStr "s3")
     :: combine ["depth"; "width"; "shift"]
          [CNum (Fin 3); CStr "bad"; CNum (Fin 0)])%string
    (endmember_table "mineral"%string ["depth"; "width"; "shift"]%string
       (CStr "e1") (CStr "e2") (map Fin [1; 2; 0]) (map Fin [3; 1; 0]))
  = Raise TypeError.
Proof.
  apply (text_in_sample_raises (1 # 2) "sample"%string (CStr "s3")
           "mineral"%string (CStr "e1") (CStr "e2")
           ["depth"; "width"; "shift"]%string
           [CNum (Fin 3); CStr "bad"; CNum (Fin 0)] [1; 2; 0] [3; 1; 0]);
    try reflexivity.
  exists "bad"%string. right. now left.
Defined.

(* ------------------------------------------------------------------ *)
(** ** Further properties of the batch driver *)

Lemma length_successes_failures {A B : Type} (f : A -> exc B)
    (items : list (nat * A)) :
  (length (successes (map (fun it => f (snd it)) items))
   + length (failures (map (fun it => (fst it, f (snd it))) items))
   = length items)%nat.
Proof.
  induction items as [|[i a] items IH]; cbn [map fst snd]; [reflexivity|].
  cbn [successes failures]. destruct (f a); cbn [length]; lia.
Qed.

Lemma errors_failures {A : Type} (l : list (nat * exc A)) :
  errors (failures l) = failures l.
Proof.
  unfold errors. induction l as [|[i [a|e]] l IH]; cbn [failures filter fst];
    [reflexivity|exact IH|now rewrite IH].
Qed.

Lemma length_iterrows (df : DataFrame) : length (iterrows df) = len df.
Proof.
  unfold iterrows, len. rewrite length_combine, length_seq, length_map. lia.
Qed.

(** X6.  In a run whose tables pass the checks every sample row is
    accounted for exactly once: the rows written and the error records of
    the log add up to the rows of the sample table. *)
Theorem every_row_is_written_or_reported
    (minimize_scalar : (num -> exc num) -> num * num -> exc OptimizeResult)
    (files : Files) (_df : DataFrame) :
  validated files _df ->
  exists results,
    results_predicted_xlsx (main minimize_scalar files) = Some results
    /\ (length results
        + length (errors (log (main minimize_scalar files)))
        = len _df)%nat.
Proof.
  intros Hv. rewrite (main_validated minimize_scalar files _df Hv).
  cbn [results_predicted_xlsx log]. eexists. split; [reflexivity|].
  unfold errors. rewrite !filter_app. cbn [filter fst app].
  rewrite app_nil_r. fold (errors (failures
    (map (fun it => (fst it,
            resolve_row minimize_scalar (snd it) (endmembers_xlsx files)))
       (iterrows _df)))).
  rewrite errors_failures, <- map_snd_iterrows, map_map.
  rewrite (length_successes_failures
             (fun row =>
                resolve_row minimize_scalar row (endmembers_xlsx files))).
  apply length_iterrows.
Qed.

Lemma every_row_is_written_or_reported_witness :
  exists results,
    results_predicted_xlsx (main probe_minimize example_files) = Some results
    /\ (length results
        + length (errors (log (main probe_minimize example_files)))
        = len example_samples)%nat.
Proof.
  apply (every_row_is_written_or_reported probe_minimize example_files
           example_samples).
  repeat split. cbv. lia.
Defined.

(** X7.  The result file is written exactly when the three checks pass.
    Otherwise the run stops with one error record after the start message,
    nothing is written, and the error is the one of the first check that
    fails. *)
Theorem output_written_iff_checks_pass
    (minimize_scalar : (num -> exc num) -> num * num -> exc OptimizeResult)
    (files : Files) :
  ((exists results,
       results_predicted_xlsx (main minimize_scalar files) = Some results)
   <-> exists _df, validated files _df)
  /\ (results_predicted_xlsx (main minimize_scalar files) = None ->
      exists m,
        log (main minimize_scalar files) = [(INFO, Starting); (ERROR, m)]
        /\ (m = TooManyEndmembers (endmembers_xlsx files)
            /\ (2 < len (endmembers_xlsx files))%nat
            \/ m = NoSecondSheet
               /\ (len (endmembers_xlsx files) <= 2)%nat
               /\ nth_error (results_xlsx files) 1 = None
            \/ m = ParameterMismatch
               /\ (len (endmembers_xlsx files) <= 2)%nat
               /\ exists _df, nth_error (results_xlsx files) 1 = Some _df)).
Proof.
  unfold main, validated.
  destruct (Nat.ltb_spec 2 (len (endmembers_xlsx files))) as [Hlen|Hlen].
  - cbn [results_predicted_xlsx log app]. split.
    + split; [intros [r Hr]; discriminate|intros [df [H _]]; lia].
    + intros _. eexists. split; [reflexivity|]. left. now split.
  - destruct (nth_error (results_xlsx files) 1) as [df|] eqn:Hsheet.
    + destruct (Nat.eqb_spec (length (tl (columns df)))
                  (length (tl (columns (endmembers_xlsx files)))))
        as [Hcols|Hcols]; cbn [negb].
      * destruct (fold_left _ _ _) as [results logged].
        cbn [results_predicted_xlsx log]. split.
        -- split; [intros _; now exists df|intros _; now eexists].
        -- discriminate.
      * cbn [results_predicted_xlsx log app]. split.
        -- split; [intros [r Hr]; discriminate|].
           intros [df' [_ [Hdf Hc]]]. injection Hdf as <-. contradiction.
        -- intros _. eexists. split; [reflexivity|].
           right. right. repeat split; [assumption|now exists df].
    + cbn [results_predicted_xlsx log app]. split.
      * split; [intros [r Hr]; discriminate|].
        intros [df [_ [Hdf _]]]. discriminate.
      * intros _. eexists. split; [reflexivity|].
        right. left. now repeat split.
Qed.

Lemma failed_rows_failures {A B : Type} (f : A -> exc B) (l : list A)
    (k : nat) :
  let rows :=
    failed_rows
      (failures (map (fun it => (fst it, f (snd it)))
                     (combine (seq k (length l)) l))) in
  Forall (fun i => (k <= i < k + length l)%nat) rows
  /\ StronglySorted lt rows.
Proof.
  cbv zeta. revert k.
  induction l as [|a l IH]; intros k;
    cbn [length seq combine map failures failed_rows fst snd].
  - split; constructor.
  - destruct (IH (S k)) as [Hr Hs].
    assert (Hr' : Forall (fun i => (k <= i < k + S (length l))%nat)
                    (failed_rows
                       (failures
                          (map (fun it => (fst it, f (snd it)))
                               (combine (seq (S k) (length l)) l))))).
    { eapply Forall_impl; [|exact Hr]. cbn beta. intros i Hi. lia. }
    destruct (f a) as [v|e]; cbn [failed_rows]; [now split|].
    split.
    + constructor; [lia|exact Hr'].
    + constructor; [exact Hs|].
      eapply Forall_impl; [|exact Hr]. cbn beta. intros i Hi. lia.
Qed.

(** X8.  The diagnostics of a run come in input order: the row positions
    they name are strictly increasing (so no row is reported twice) and are
    positions of the sample table. *)
Theorem diagnostics_are_in_input_order
    (minimize_scalar : (num -> exc num) -> num * num -> exc OptimizeResult)
    (files : Files) (_df : DataFrame) :
  validated files _df ->
  StronglySorted lt (failed_rows (log (main minimize_scalar files)))
  /\ Forall (fun i => (i < len _df)%nat)
       (failed_rows (log (main minimize_scalar files))).
Proof.
  intros Hv. rewrite (main_validated minimize_scalar files _df Hv).
  cbn [log app failed_rows].
  assert (Happ : forall l,
            failed_rows (l ++ [(INFO, Completed)]) = failed_rows l).
  { induction l as [|[lv m] l IH]; [reflexivity|].
    cbn [app failed_rows]. destruct m; now rewrite IH. }
  rewrite Happ. unfold iterrows.
  rewrite <- (length_map (combine (columns _df)) (rows _df)).
  destruct (failed_rows_failures
              (fun row =>
                 resolve_row minimize_scalar row (endmembers_xlsx files))
              (map (combine (columns _df)) (rows _df)) 0) as [Hr Hs].
  split; [exact Hs|].
  eapply Forall_impl; [|exact Hr]. cbn beta. intros i Hi.
  unfold len. rewrite length_map in Hi. lia.
Qed.

Lemma diagnostics_are_in_input_order_witness :
  StronglySorted lt (failed_rows (log (main probe_minimize example_files)))
  /\ Forall (fun i => (i < len example_samples)%nat)
       (failed_rows (log (main probe_minimize example_files))).
Proof.
  apply (diagnostics_are_in_input_order probe_minimize example_files
           example_samples).
  repeat split. cbv. lia.
Defined.

Lemma second_endmember_missing (E : DataFrame) :
  (len E < 2)%nat -> iloc_row_from E 1 1 = Raise IndexError.
Proof.
  intros H. unfold iloc_row_from, iloc_row.
  assert (Hn : nth_error (rows E) 1 = None)
    by (apply nth_error_None; unfold len in H; lia).
  now rewrite Hn.
Qed.

Lemma first_endmember_cases (E : DataFrame) :
  iloc_row_from E 0 1 = Raise IndexError
  \/ exists p, iloc_row_from E 0 1 = Ok p.
Proof.
  unfold iloc_row_from, iloc_row.
  destruct (nth_error (rows E) 0); cbn [bind]; eauto.
Qed.

Lemma failed_rows_all_raise {A B : Type} (f : A -> exc B) (l : list A)
    (k : nat) :
  (forall a, In a l -> exists e, f a = Raise e) ->
  failed_rows
    (failures (map (fun it => (fst it, f (snd it)))
                   (combine (seq k (length l)) l)))
  = seq k (length l).
Proof.
  revert k. induction l as [|a l IH]; intros k H;
    cbn [length seq combine map failures failed_rows fst snd];
    [reflexivity|].
  destruct (H a (or_introl eq_refl)) as [e ->]. cbn [failed_rows].
  f_equal. apply IH. intros b Hb. apply H. now right.
Qed.

Lemma failed_rows_completed (l : list LogRecord) :
  failed_rows (l ++ [(INFO, Completed)]) = failed_rows l.
Proof.
  induction l as [|[lv m] l IH]; [reflexivity|].
  cbn [app failed_rows]. destruct m; now rewrite IH.
Qed.

(** X9.  An endmember table of fewer than two rows passes the first check
    of [main], and then no row can be resolved: the objective raises
    IndexError for every fraction and every sample, whatever the optimizer
    does the resolver raises, and the run writes an empty table with one
    diagnostic for each sample row. *)
Theorem fewer_than_two_endmembers_fail_every_row
    (minimize_scalar : (num -> exc num) -> num * num -> exc OptimizeResult)
    (files : Files) (_df : DataFrame) :
  validated files _df ->
  (len (endmembers_xlsx files) < 2)%nat ->
  (forall a1 data,
      _calculate_ssr a1 data (endmembers_xlsx files) = Raise IndexError)
  /\ (forall data,
         exists e,
           _find_optimal_mixture minimize_scalar data (endmembers_xlsx files)
           = Raise e)
  /\ results_predicted_xlsx (main minimize_scalar files) = Some []
  /\ failed_rows (log (main minimize_scalar files)) = seq 0 (len _df).
Proof.
  intros Hv Hlen.
  pose proof (second_endmember_missing _ Hlen) as H2.
  assert (Hfind : forall data,
            exists e,
              _find_optimal_mixture minimize_scalar data
                (endmembers_xlsx files) = Raise e).
  { intros data. unfold _find_optimal_mixture.
    destruct (minimize_scalar _ _) as [res|e]; cbn [bind]; [|eauto].
    rewrite H2.
    destruct (first_endmember_cases (endmembers_xlsx files))
      as [->|[p ->]]; cbn [bind]; eauto. }
  assert (Hrow : forall row,
            exists e,
              resolve_row minimize_scalar row (endmembers_xlsx files)
              = Raise e).
  { intros row. unfold resolve_row.
    destruct (Hfind row) as [e ->]. cbn [bind]. eauto. }
  split; [|split; [exact Hfind|]].
  - intros a1 data. unfold _calculate_ssr. cbv zeta. rewrite H2.
    destruct (first_endmember_cases (endmembers_xlsx files))
      as [->|[p ->]]; reflexivity.
  - rewrite (main_validated minimize_scalar files _df Hv).
    cbn [results_predicted_xlsx log]. split.
    + f_equal. apply successes_all_raise. intros row _. apply Hrow.
    + cbn [app failed_rows]. rewrite failed_rows_completed.
      unfold iterrows, len.
      rewrite <- (length_map (combine (columns _df)) (rows _df)).
      apply (failed_rows_all_raise
               (fun row =>
                  resolve_row minimize_scalar row (endmembers_xlsx files))).
      intros row _. apply Hrow.
Qed.

Lemma fewer_than_two_endmembers_fail_every_row_witness :
  (forall a1 data,
      _calculate_ssr a1 data (endmembers_xlsx single_endmember_files)
      = Raise IndexError)
  /\ (forall data,
         exists e,
           _find_optimal_mixture probe_minimize data
             (endmembers_xlsx single_endmember_files)
           = Raise e)
  /\ results_predicted_xlsx (main probe_minimize single_endmember_files)
     = Some []
  /\ failed_rows (log (main probe_minimize single_endmember_files))
     = seq 0 (len one_sample).
Proof.
  apply (fewer_than_two_endmembers_fail_every_row probe_minimize
           single_endmember_files one_sample).
  - repeat split. cbv. lia.
  - cbv. lia.
Defined.

(* ------------------------------------------------------------------ *)
(** ** The size of the objective *)

(** For a sample value and a predicted value that are not negative the
    relative residual is at most 2 in size. *)
Lemma relative_residual_square_bounded (d p : Q) :
  0 <= d -> 0 <= p -> relative_residual d p * relative_residual d p <= 4.
Proof.
  intros Hd Hp. unfold relative_residual. cbv zeta.
  destruct (Qle_bool (Qabs ((d + p) / 2)) eps) eqn:E; cbn [negb]; [lra|].
  assert (Hm : 0 < (d + p) / 2).
  { assert (Hn : ~ Qabs ((d + p) / 2) <= eps)
      by (intros H; apply Qle_bool_iff in H; congruence).
    assert (H0 : 0 <= (d + p) / 2) by (apply Qle_shift_div_l; lra).
    rewrite Qabs_pos in Hn by exact H0. unfold eps in Hn. lra. }
  set (m := (d + p) / 2) in *.
  assert (Hdp : d + p == 2 * m) by (unfold m; field).
  set (r := (p - d) / m).
  assert (Hr : r * m == p - d) by (unfold r; field; lra).
  assert (Hsq : r * r * (m * m) <= 4 * (m * m)).
  { setoid_replace (r * r * (m * m)) with ((p - d) * (p - d))
      by (rewrite <- Hr; ring).
    setoid_replace (4 * (m * m)) with ((d + p) * (d + p))
      by (rewrite Hdp; ring).
    nra. }
  assert (Hmm : 0 < m * m) by nra.
  apply Qmult_lt_0_le_reg_r with (z := m * m); assumption.
Qed.

Lemma Qsum_bounded (c : Q) (l : list Q) :
  Forall (fun q => q <= c) l ->
  Qsum l <= c * inject_Z (Z.of_nat (length l)).
Proof.
  unfold Qsum. induction 1 as [|q l Hq _ IH]; cbn [fold_right length].
  - change (inject_Z (Z.of_nat 0)) with 0. lra.
  - rewrite Nat2Z.inj_succ. unfold Z.succ. rewrite inject_Z_plus.
    change (inject_Z 1) with 1. lra.
Qed.

Lemma residual_terms_bounded (a1 a2 : Q) (d e1 e2 : list Q) :
  0 <= a1 -> 0 <= a2 ->
  Forall (fun x => 0 <= x) d -> Forall (fun x => 0 <= x) e1 ->
  Forall (fun x => 0 <= x) e2 ->
  Forall (fun q => q <= 4) (residual_terms a1 a2 d e1 e2).
Proof.
  intros Ha1 Ha2 Hd H1 H2. rewrite Forall_forall in Hd, H1, H2.
  unfold residual_terms. apply Forall_forall. intros q Hq.
  apply in_map_iff in Hq as [[x [y z]] [<- Hin]]. cbn [fst snd].
  pose proof (in_combine_l _ _ _ _ Hin) as Hx.
  pose proof (in_combine_r _ _ _ _ Hin) as Hyz.
  pose proof (in_combine_l _ _ _ _ Hyz) as Hy.
  pose proof (in_combine_r _ _ _ _ Hyz) as Hz.
  apply relative_residual_square_bounded; [now apply Hd|].
  specialize (H1 y Hy). specialize (H2 z Hz). cbv beta in H1, H2. nra.
Qed.

Lemma length_residual_terms (a1 a2 : Q) (d e1 e2 : list Q) :
  length (residual_terms a1 a2 d e1 e2)
  = Nat.min (length d) (Nat.min (length e1) (length e2)).
Proof.
  unfold residual_terms. now rewrite length_map, !length_combine.
Qed.

(** X10.  On features that are not negative (the sample's and the two
    endmembers') each squared relative residual is at most 4, so the
    objective is a finite number between 0 and four times the number of
    features, at every finite fraction. *)
Theorem objective_is_bounded
    (a1 : Q) (idl : label) (idv : cell) (idc : label) (id1 id2 : cell)
    (ls : list label) (d e1 e2 : list Q) :
  length d = length ls -> length e1 = length ls -> length e2 = length ls ->
  Forall (fun x => 0 <= x) d -> Forall (fun x => 0 <= x) e1 ->
  Forall (fun x => 0 <= x) e2 ->
  exists s,
    _calculate_ssr (Fin a1) (sample_row idl idv ls (map Fin d))
      (endmember_table idc ls id1 id2 (map Fin e1) (map Fin e2))
    = Ok (Fin s)
    /\ 0 <= s <= 4 * inject_Z (Z.of_nat (length ls)).
Proof.
  intros Hd H1 H2 Pd P1 P2.
  exists (Qred (ssr_reference a1 d e1 e2)). split.
  - now apply calculate_ssr_finite.
  - rewrite Qred_correct. split; [apply ssr_reference_nonneg|].
    unfold ssr_reference. cbv zeta.
    pose proof (clamp_bounds a1) as [Hc0 Hc1].
    eapply Qle_trans.
    + apply Qsum_bounded.
      apply (residual_terms_bounded (clamp a1) (1 - clamp a1) d e1 e2);
        [exact Hc0|lra|exact Pd|exact P1|exact P2].
    + rewrite length_residual_terms, Hd, H1, H2, !Nat.min_id. lra.
Qed.

Lemma objective_is_bounded_witness :
  exists s,
    _calculate_ssr (Fin (1 # 4))
      (sample_row "sample"%string (CStr "s1") ["f1"; "f2"; "f3"]%string
         (map Fin [2; 3 # 2; 0]))
      (endmember_table "endmember"%string ["f1"; "f2"; "f3"]%string
         (CStr "e1") (CStr "e2") (map Fin [1; 2; 0]) (map Fin [3; 1; 0]))
    = Ok (Fin s)
    /\ 0 <= s
       <= 4 * inject_Z (Z.of_nat (length ["f1"; "f2"; "f3"]%string)).
Proof.
  apply (objective_is_bounded (1 # 4) "sample"%string (CStr "s1")
           "endmember"%string (CStr "e1") (CStr "e2")
           ["f1"; "f2"; "f3"]%string
           [2; 3 # 2; 0] [1; 2; 0] [3; 1; 0]);
    try reflexivity; repeat constructor; discriminate.
Defined.

(* ------------------------------------------------------------------ *)
(** ** The result record *)

Lemma lookup_app (k : label) (a b : Series) :
  lookup k (a ++ b)
  = match lookup k a with Some v => Some v | None => lookup k b end.
Proof.
  induction a as [|[k' v'] a IH]; cbn [app lookup]; [reflexivity|].
  now destruct (String.eqb k k').
Qed.

Lemma lookup_In (k : label) (v : cell) (s : Series) :
  lookup k s = Some v -> In (k, v) s.
Proof.
  induction s as [|[k' v'] s IH]; cbn [lookup]; [discriminate|].
  destruct (String.eqb_spec k k') as [->|_].
  - intros [= ->]. now left.
  - intros H. right. now apply IH.
Qed.

Lemma lookup_None (k : label) (s : Series) :
  lookup k s = None <-> ~ In k (map fst s).
Proof.
  induction s as [|[k' v'] s IH]; cbn [lookup map fst In]; [tauto|].
  destruct (String.eqb_spec k k') as [->|Hne].
  - split; [discriminate|]. intros H. exfalso. apply H. now left.
  - rewrite IH. split; [intros H [Heq|Hin]; [congruence|tauto]|tauto].
Qed.

Lemma lookup_rev (k : label) (s : Series) :
  NoDup (map fst s) -> lookup k (rev s) = lookup k s.
Proof.
  induction s as [|[k' v'] s IH]; cbn [map fst rev lookup]; [reflexivity|].
  intros Hnd. inversion Hnd as [|? ? Hnotin Hnd']; subst.
  rewrite lookup_app, (IH Hnd'). cbn [lookup].
  destruct (String.eqb_spec k k') as [->|_].
  - apply lookup_None in Hnotin. now rewrite Hnotin.
  - now destruct (lookup k s).
Qed.

Lemma lookup_dict_set (k k' : string) (v : cell) (d : Dict) :
  lookup k (dict_set k' v d)
  = if String.eqb k k' then Some v else lookup k d.
Proof.
  induction d as [|[k0 v0] d IH]; cbn [dict_set lookup]; [reflexivity|].
  destruct (String.eqb_spec k' k0) as [->|Hne]; cbn [lookup].
  - now destruct (String.eqb k k0).
  - rewrite IH. destruct (String.eqb_spec k k0) as [->|_]; [|reflexivity].
    destruct (String.eqb_spec k0 k'); congruence.
Qed.

Lemma keys_dict_set (k : string) (v : cell) (d : Dict) :
  map fst (dict_set k v d)
  = map fst d ++ (if existsb (String.eqb k) (map fst d) then [] else [k]).
Proof.
  induction d as [|[k0 v0] d IH]; cbn [dict_set map fst existsb app];
    [reflexivity|].
  destruct (String.eqb_spec k k0) as [->|Hne]; cbn [map fst orb].
  - now rewrite app_nil_r.
  - now rewrite IH.
Qed.

Lemma NoDup_dict_set (k : string) (v : cell) (d : Dict) :
  NoDup (map fst d) -> NoDup (map fst (dict_set k v d)).
Proof.
  intros Hnd. rewrite keys_dict_set.
  destruct (existsb (String.eqb k) (map fst d)) eqn:E.
  - now rewrite app_nil_r.
  - apply NoDup_app; [exact Hnd|repeat constructor; intros []|].
    intros x Hx [<-|[]].
    assert (Ht : existsb (String.eqb k) (map fst d) = true)
      by (apply existsb_exists; exists k; split;
          [exact Hx|apply String.eqb_refl]).
    congruence.
Qed.

(** A dict built from items: a key has the value of its last item, the
    keys are unique, and those of the dict it was built on come first. *)
Lemma fold_dict_set (items : list (string * cell)) (d : Dict) :
  let d' := fold_left (fun d kv => dict_set (fst kv) (snd kv) d) items d in
  (forall k,
      lookup k d'
      = match lookup k (rev items) with
        | Some v => Some v
        | None => lookup k d
        end)
  /\ (NoDup (map fst d) -> NoDup (map fst d'))
  /\ exists tail, map fst d' = map fst d ++ tail.
Proof.
  cbv zeta. revert d.
  induction items as [|[k0 v0] items IH]; intros d; cbn [fold_left fst snd].
  - repeat split; [auto|]. exists []. now rewrite app_nil_r.
  - destruct (IH (dict_set k0 v0 d)) as [Hl [Hn [tail Ht]]].
    split; [|split].
    + intros k. rewrite Hl. cbn [rev]. rewrite lookup_app, lookup_dict_set.
      cbn [lookup].
      now destruct (lookup k (rev items)), (String.eqb k k0).
    + intros Hnd. now apply Hn, NoDup_dict_set.
    + rewrite Ht, keys_dict_set, <- app_assoc. eauto.
Qed.

Lemma lookup_dict_of_items (items : list (string * cell)) (k : string) :
  lookup k (dict_of_items items) = lookup k (rev items).
Proof.
  unfold dict_of_items.
  destruct (fold_dict_set items []) as [Hl _]. rewrite Hl.
  now destruct (lookup k (rev items)).
Qed.

Lemma NoDup_dict_of_items (items : list (string * cell)) :
  NoDup (map fst (dict_of_items items)).
Proof.
  unfold dict_of_items.
  destruct (fold_dict_set items []) as [_ [Hn _]]. apply Hn. constructor.
Qed.

Lemma find_optimal_mixture_dict minimize_scalar (data : Series)
    (E : DataFrame) (a1 a2 ssr : num) (mixture : Dict) :
  _find_optimal_mixture minimize_scalar data E = Ok (a1, a2, ssr, mixture) ->
  exists predicted_params, mixture = to_dict predicted_params.
Proof.
  unfold _find_optimal_mixture. intros H.
  destruct (minimize_scalar _ _) as [res|e]; [|discriminate].
  cbn [bind] in H.
  destruct (iloc_row_from E 0 1) as [p1|]; [|discriminate].
  destruct (iloc_row_from E 1 1) as [p2|]; [|discriminate].
  cbn [bind] in H.
  destruct (series_mul_scalar p1 _) as [m1|]; [|discriminate].
  destruct (series_mul_scalar p2 _) as [m2|]; [|discriminate].
  cbn [bind] in H.
  destruct (series_add m1 m2) as [p|]; [|discriminate].
  cbn [bind] in H. injection H as _ _ _ <-. now exists p.
Qed.

(** X11.  The record of a resolved row has unique keys, of which the
    first four are [id], [a1], [a2] and [ssr]; a key is the value of the
    predicted feature of that name if there is one, and the field
    otherwise.  So a feature column named like one of the four fields
    replaces the identifier, the fraction or the residual in the output. *)
Theorem record_fields
    (minimize_scalar : (num -> exc num) -> num * num -> exc OptimizeResult)
    (row : Series) (_endmembers : DataFrame) (record : Dict) :
  resolve_row minimize_scalar row _endmembers = Ok record ->
  exists a1 a2 ssr mixture row_id,
    _find_optimal_mixture minimize_scalar row _endmembers
    = Ok (a1, a2, ssr, mixture)
    /\ iloc row 0 = Ok row_id
    /\ NoDup (map fst record)
    /\ (exists features,
           map fst record = ["id"; "a1"; "a2"; "ssr"]%string ++ features)
    /\ forall k,
         lookup k record
         = match lookup k mixture with
           | Some v => Some v
           | None =>
               lookup k [("id"%string, row_id); ("a1"%string, CNum a1);
                         ("a2"%string, CNum a2); ("ssr"%string, CNum ssr)]
           end.
Proof.
  unfold resolve_row. intros H.
  destruct (_find_optimal_mixture minimize_scalar row _endmembers)
    as [[[[a1 a2] ssr] mixture]|e] eqn:Hfind; [|discriminate].
  cbn [bind] in H.
  destruct (iloc row 0) as [row_id|e]; [|discriminate].
  cbn [bind] in H. injection H as <-.
  exists a1, a2, ssr, mixture, row_id.
  split; [reflexivity|]. split; [reflexivity|].
  split; [apply NoDup_dict_of_items|]. split.
  - unfold dict_of_items. cbn [app fold_left fst snd].
    match goal with
    | |- context [fold_left ?f mixture ?d] =>
        destruct (fold_dict_set mixture d) as [_ [_ [tail Ht]]]
    end.
    exists tail. exact Ht.
  - intros k. rewrite lookup_dict_of_items.
    match goal with
    | |- context [rev (?a :: ?b :: ?c :: ?d :: mixture)] =>
        change (a :: b :: c :: d :: mixture) with ([a; b; c; d] ++ mixture)
    end.
    rewrite rev_app_distr, lookup_app.
    destruct (find_optimal_mixture_dict _ _ _ _ _ _ _ Hfind) as [p ->].
    assert (Hm : lookup k (rev (to_dict p)) = lookup k (to_dict p))
      by apply lookup_rev, NoDup_dict_of_items.
    rewrite Hm. destruct (lookup k (to_dict p)); [reflexivity|].
    apply lookup_rev. cbn [map fst].
    repeat constructor; cbn [In]; intros H; repeat destruct H as [H|H];
      try discriminate; exact H.
Qed.

Lemma record_fields_witness :
  let record :=
    [("id", CStr "s1"); ("a1", CNum (Fin (559017 # 250000)));
     ("a2", CNum (Fin (309017 # 500000)));
     ("ssr", CNum (Fin (13932025156 # 1121517006289)))]%string in
  exists a1 a2 ssr mixture row_id,
    _find_optimal_mixture probe_minimize shadowing_row shadowing_endmembers
    = Ok (a1, a2, ssr, mixture)
    /\ iloc shadowing_row 0 = Ok row_id
    /\ NoDup (map fst record)
    /\ (exists features,
           map fst record = ["id"; "a1"; "a2"; "ssr"]%string ++ features)
    /\ forall k,
         lookup k record
         = match lookup k mixture with
           | Some v => Some v
           | None =>
               lookup k [("id"%string, row_id); ("a1"%string, CNum a1);
                         ("a2"%string, CNum a2); ("ssr"%string, CNum ssr)]
           end.
Proof.
  apply (record_fields probe_minimize shadowing_row shadowing_endmembers).
  vm_compute. reflexivity.
Defined.

(* ------------------------------------------------------------------ *)
(** ** The predicted mixture *)

Lemma nth_error_combine {A B : Type} (l : list A) (l' : list B) (i : nat)
    (x : A) (y : B) :
  nth_error (combine l l') i = Some (x, y) ->
  nth_error l i = Some x /\ nth_error l' i = Some y.
Proof.
  revert l' i. induction l as [|a l IH]; intros [|b l'] [|i];
    cbn [combine nth_error]; try discriminate.
  - intros [= -> ->]. now split.
  - apply IH.
Qed.

Lemma nth_error_mixture (a a2 : Q) (e1 e2 : list Q) (i : nat) (n : num) :
  nth_error (mixture (Fin a) (Fin a2) (map Fin e1) (map Fin e2)) i = Some n ->
  exists x y,
    nth_error e1 i = Some x /\ nth_error e2 i = Some y
    /\ n = Fin (Qred (Qred (x * a) + Qred (y * a2))).
Proof.
  unfold mixture, pointwise. revert e2 i.
  induction e1 as [|x e1 IH]; intros [|y e2] [|i];
    cbn [map combine nth_error fst snd]; try discriminate.
  - intros [= <-]. now exists x, y.
  - apply IH.
Qed.

(** X12.  The predicted mixture the resolver returns is computed with the
    fraction as the optimizer returned it.  In exact arithmetic (the numbers
    here are exact rationals, rounding is not modelled), for a fraction [a]
    in [0,1] and endmembers that are finite numbers, each predicted value is
    the value [x * a + y * (1 - a)] of a feature of that name and lies
    between the values [x] and [y] of the two endmembers there.  In floating
    point the sum is rounded, and the value can leave the interval by the
    rounding error. *)
Theorem predicted_value_is_between_endmembers
    (minimize_scalar : (num -> exc num) -> num * num -> exc OptimizeResult)
    (data : Series) (idc : label) (id1 id2 : cell) (ls : list label)
    (e1 e2 : list Q) (a : Q) (a2 ssr : num) (predicted_mixture : Dict)
    (l : label) (v : cell) :
  length e1 = length ls -> length e2 = length ls ->
  _find_optimal_mixture minimize_scalar data
    (endmember_table idc ls id1 id2 (map Fin e1) (map Fin e2))
  = Ok (Fin a, a2, ssr, predicted_mixture) ->
  0 <= a <= 1 ->
  lookup l predicted_mixture = Some v ->
  exists i x y p,
    nth_error ls i = Some l /\ nth_error e1 i = Some x
    /\ nth_error e2 i = Some y /\ v = CNum (Fin p)
    /\ p == x * a + y * (1 - a) /\ Qmin x y <= p <= Qmax x y.
Proof.
  intros H1 H2 Hfind [Ha0 Ha1] Hl.
  apply find_optimal_mixture_table in Hfind as [res [_ Hr]];
    [|now rewrite length_map..].
  injection Hr as Hx _ _ ->. rewrite <- Hx in Hl. clear Hx.
  unfold to_dict in Hl. rewrite lookup_dict_of_items in Hl.
  apply lookup_In, in_rev, In_nth_error in Hl as [i Hi].
  unfold labelled in Hi. apply nth_error_combine in Hi as [Hls Hv].
  rewrite nth_error_map in Hv.
  destruct (nth_error (mixture _ _ _ _) i) as [n|] eqn:Hn; [|discriminate].
  cbn [option_map] in Hv. injection Hv as <-.
  change (nsub (Fin 1) (Fin a)) with (Fin (Qred (1 - a))) in Hn.
  apply nth_error_mixture in Hn as [x [y [Hx [Hy ->]]]].
  exists i, x, y, (Qred (Qred (x * a) + Qred (y * Qred (1 - a)))).
  repeat (split; [assumption || reflexivity|]).
  assert (Hp : Qred (Qred (x * a) + Qred (y * Qred (1 - a)))
               == x * a + y * (1 - a))
    by (now rewrite !Qred_correct).
  split; [exact Hp|]. rewrite Hp.
  destruct (Q.min_spec x y) as [[Hxy ->]|[Hxy ->]];
    destruct (Q.max_spec x y) as [[Hxy' ->]|[Hxy' ->]]; split; nra.
Qed.

Lemma predicted_value_is_between_endmembers_witness :
  exists i x y p,
    nth_error ["depth"; "width"; "shift"]%string i = Some "width"%string
    /\ nth_error [1; 2; 0] i = Some x
    /\ nth_error [3; 1; 0] i = Some y
    /\ CNum (Fin (690983 # 500000)) = CNum (Fin p)
    /\ p == x * (381966 # 1000000) + y * (1 - (381966 # 1000000))
    /\ Qmin x y <= p <= Qmax x y.
Proof.
  eapply (predicted_value_is_between_endmembers probe_minimize
            [("sample", CStr "s4"); ("depth", CNum (Fin 2));
             ("width", CNum (Fin (3 # 2))); ("shift", CNum (Fin 0))]%string
            "mineral"%string (CStr "e1") (CStr "e2")
            ["depth"; "width"; "shift"]%string [1; 2; 0] [3; 1; 0]).
  - reflexivity.
  - reflexivity.
  - vm_compute. reflexivity.
  - split; discriminate.
  - vm_compute. reflexivity.
Defined.

(* ------------------------------------------------------------------ *)
(** ** Features are matched by name *)

Lemma label_lt_irrefl (x : label) : ~ label_lt x x.
Proof.
  unfold label_lt, String.ltb.
  pose proof (proj2 (OrderedTypeEx.String_as_OT.cmp_eq x x) eq_refl) as H.
  unfold OrderedTypeEx.String_as_OT.cmp in H. rewrite H. discriminate.
Qed.

Lemma label_lt_trans (x y z : label) :
  label_lt x y -> label_lt y z -> label_lt x z.
Proof.
  unfold label_lt, String.ltb. intros Hxy Hyz.
  destruct (String.compare x y) eqn:E1; try discriminate.
  destruct (String.compare y z) eqn:E2; try discriminate.
  apply OrderedTypeEx.String_as_OT.cmp_lt in E1, E2.
  pose proof (OrderedTypeEx.String_as_OT.lt_trans _ _ _ E1 E2) as H.
  apply OrderedTypeEx.String_as_OT.cmp_lt in H.
  unfold OrderedTypeEx.String_as_OT.cmp in H. now rewrite H.
Qed.

Lemma label_lt_total (x y : label) :
  String.eqb x y = false -> String.ltb x y = false -> label_lt y x.
Proof.
  unfold label_lt, String.ltb. intros Hne Hlt.
  rewrite String.compare_antisym.
  destruct (String.compare x y) eqn:E; try discriminate; [|reflexivity].
  apply String.compare_eq_iff in E. apply String.eqb_neq in Hne. contradiction.
Qed.

Lemma In_insert_label (x l : label) (ls : list label) :
  In x (insert_label l ls) <-> x = l \/ In x ls.
Proof.
  induction ls as [|y ls IH]; cbn [insert_label In]; [intuition|].
  destruct (String.eqb_spec l y) as [->|Hne].
  - cbn [In]. intuition.
  - destruct (String.ltb l y); cbn [In]; [intuition|].
    rewrite IH. intuition.
Qed.

Lemma insert_label_sorted (l : label) (ls : list label) :
  StronglySorted label_lt ls -> StronglySorted label_lt (insert_label l ls).
Proof.
  induction 1 as [|y ls Hs IH Hy]; cbn [insert_label].
  - repeat constructor.
  - destruct (String.eqb l y) eqn:Heq; [now constructor|].
    destruct (String.ltb l y) eqn:Hlt.
    + constructor; [now constructor|].
      constructor; [exact Hlt|].
      eapply Forall_impl; [|exact Hy]. cbv beta. intros z Hz.
      now apply (label_lt_trans l y z).
    + constructor; [exact IH|].
      apply Forall_forall. intros z Hz.
      apply In_insert_label in Hz as [->|Hz].
      * now apply label_lt_total.
      * rewrite Forall_forall in Hy. now apply Hy.
Qed.

Lemma In_index_union (x : label) (a b : list label) :
  In x (index_union a b) <-> In x a \/ In x b.
Proof.
  unfold index_union. rewrite <- in_app_iff.
  induction (a ++ b) as [|y l IH]; cbn [fold_right In]; [tauto|].
  rewrite In_insert_label, IH. intuition.
Qed.

Lemma index_union_sorted (a b : list label) :
  StronglySorted label_lt (index_union a b).
Proof.
  unfold index_union.
  induction (a ++ b) as [|y l IH]; cbn [fold_right]; [constructor|].
  now apply insert_label_sorted.
Qed.

Lemma sorted_labels_unique (a b : list label) :
  StronglySorted label_lt a -> StronglySorted label_lt b ->
  (forall x, In x a <-> In x b) -> a = b.
Proof.
  intros Ha. revert b.
  induction Ha as [|x a Ha IH Hx]; intros b Hb Hab.
  - destruct b as [|y b]; [reflexivity|].
    destruct (proj2 (Hab y) (or_introl eq_refl)).
  - destruct Hb as [|y b Hb Hy].
    + destruct (proj1 (Hab x) (or_introl eq_refl)).
    + rewrite Forall_forall in Hx, Hy.
      assert (Hxy : x = y).
      { destruct (proj1 (Hab x) (or_introl eq_refl)) as [Heq|Hin];
          [now symmetry|].
        destruct (proj2 (Hab y) (or_introl eq_refl)) as [Heq|Hin'];
          [exact Heq|].
        exfalso. apply (label_lt_irrefl x).
        apply (label_lt_trans x y x); [now apply Hx|now apply Hy]. }
      subst y. f_equal. apply IH; [exact Hb|].
      intros z. split; intros Hz.
      * destruct (proj1 (Hab z) (or_intror Hz)) as [<-|Hin]; [|exact Hin].
        exfalso. apply (label_lt_irrefl x). now apply Hx.
      * destruct (proj2 (Hab z) (or_intror Hz)) as [<-|Hin]; [|exact Hin].
        exfalso. apply (label_lt_irrefl x). now apply Hy.
Qed.

Lemma index_union_comm (a b : list label) :
  index_union a b = index_union b a.
Proof.
  apply sorted_labels_unique; try apply index_union_sorted.
  intros x. rewrite !In_index_union. tauto.
Qed.

Lemma sorted_labels_NoDup (a : list label) :
  StronglySorted label_lt a -> NoDup a.
Proof.
  induction 1 as [|x a Ha IH Hx]; constructor; [|exact IH].
  intros Hin. rewrite Forall_forall in Hx.
  apply (label_lt_irrefl x). now apply Hx.
Qed.

Lemma mem_label (l : label) (ls : list label) :
  existsb (String.eqb l) ls = true <-> In l ls.
Proof.
  rewrite existsb_exists. split.
  - intros [x [Hx Heq]]. apply String.eqb_eq in Heq. now subst.
  - intros H. exists l. split; [exact H|apply String.eqb_refl].
Qed.

Lemma index_equals_sym (a b : list label) :
  index_equals a b = false -> index_equals b a = false.
Proof.
  intros H. destruct (index_equals b a) eqn:E; [|reflexivity].
  apply index_equals_eq in E. subst b.
  now rewrite index_equals_refl in H.
Qed.

Lemma lookup_labelled (l : label) (ls : list label) (xs : list num) :
  lookup l (labelled ls xs) = None
  \/ exists x, lookup l (labelled ls xs) = Some (CNum x).
Proof.
  unfold labelled. revert xs.
  induction ls as [|k ls IH]; intros [|x xs]; cbn [map combine lookup];
    try (now left).
  destruct (String.eqb l k); [right; now exists x|apply IH].
Qed.

Lemma reindex_labelled (ls idx : list label) (xs : list num) :
  reindex (labelled ls xs) idx
  = labelled idx (map (value_at (labelled ls xs)) idx).
Proof.
  induction idx as [|l idx IH]; [reflexivity|].
  change (reindex (labelled ls xs) (l :: idx))
    with ((l, match lookup l (labelled ls xs) with
              | Some v => v
              | None => CNum NaN
              end) :: reindex (labelled ls xs) idx).
  change (labelled (l :: idx) (map (value_at (labelled ls xs)) (l :: idx)))
    with ((l, CNum (value_at (labelled ls xs) l))
          :: labelled idx (map (value_at (labelled ls xs)) idx)).
  rewrite IH. f_equal. f_equal. unfold value_at.
  now destruct (lookup_labelled l ls xs) as [->|[x ->]].
Qed.

Lemma value_at_missing (l : label) (ls : list label) (xs : list num) :
  ~ In l ls -> value_at (labelled ls xs) l = NaN.
Proof.
  unfold value_at, labelled. revert xs.
  induction ls as [|k ls IH]; intros [|x xs] Hl; cbn [map combine lookup];
    try reflexivity.
  destruct (String.eqb_spec l k) as [->|_].
  - exfalso. apply Hl. now left.
  - apply IH. intros H. apply Hl. now right.
Qed.

Lemma map_value_at (ls : list label) (xs : list num) :
  NoDup ls -> length ls = length xs ->
  map (value_at (labelled ls xs)) ls = xs.
Proof.
  intros Hnd. revert xs.
  induction Hnd as [|k ls Hk Hnd IH]; intros [|x xs]; cbn [length];
    try discriminate; [reflexivity|].
  intros Hlen. cbn [map]. f_equal.
  - unfold value_at, labelled. cbn [map combine lookup].
    now rewrite String.eqb_refl.
  - rewrite <- (IH xs) at 2 by lia. apply map_ext_in. intros l Hl.
    unfold value_at, labelled. cbn [map combine lookup].
    destruct (String.eqb_spec l k) as [->|_]; [contradiction|reflexivity].
Qed.

Lemma pointwise_map {A : Type} (f : num -> num -> num) (g h : A -> num)
    (l : list A) :
  pointwise f (map g l) (map h l) = map (fun x => f (g x) (h x)) l.
Proof.
  unfold pointwise.
  induction l as [|x l IH]; cbn [map combine fst snd]; [reflexivity|].
  now rewrite IH.
Qed.

(** Two Series of numbers whose indexes differ: both are reindexed on the
    sorted union of the labels. *)
Lemma series_binop_unaligned op sop (ls1 ls2 : list label)
    (xs ys : list num) :
  length ls1 = length xs -> length ls2 = length ys ->
  index_equals ls1 ls2 = false ->
  series_binop op sop (labelled ls1 xs) (labelled ls2 ys)
  = Ok (labelled (index_union ls1 ls2)
          (pointwise op
             (map (value_at (labelled ls1 xs)) (index_union ls1 ls2))
             (map (value_at (labelled ls2 ys)) (index_union ls1 ls2)))).
Proof.
  intros Hx Hy Hne. unfold series_binop, align.
  rewrite (index_labelled ls1 xs Hx), (index_labelled ls2 ys Hy), Hne.
  rewrite !reindex_labelled. apply zip_arith_labelled.
Qed.

Lemma sum_squared_residuals_unaligned (ls1 ls2 : list label)
    (ds ps : list num) :
  length ls1 = length ds -> length ls2 = length ps ->
  index_equals ls1 ls2 = false ->
  sum_squared_residuals (labelled ls1 ds) (labelled ls2 ps)
  = Ok (fold_left nadd
          (map (fun l =>
                  squared_residual (value_at (labelled ls1 ds) l)
                    (value_at (labelled ls2 ps) l))
               (index_union ls1 ls2))
          (Fin 0)).
Proof.
  intros Hd Hp Hne.
  set (idx := index_union ls1 ls2).
  set (D := map (value_at (labelled ls1 ds)) idx).
  set (P := map (value_at (labelled ls2 ps)) idx).
  transitivity (sum_squared_residuals (labelled idx D) (labelled idx P)).
  - unfold sum_squared_residuals, series_add, series_sub.
    rewrite (series_binop_unaligned nadd (Some String.append)
               ls1 ls2 ds ps Hd Hp Hne).
    rewrite (series_binop_unaligned nsub None ls2 ls1 ps ds Hp Hd
               (index_equals_sym _ _ Hne)).
    rewrite (index_union_comm ls2 ls1). fold idx. fold D. fold P.
    rewrite (series_binop_labelled nadd (Some String.append) idx D P)
      by (unfold D, P; lengths).
    rewrite (series_binop_labelled nsub None idx P D)
      by (unfold D, P; lengths).
    reflexivity.
  - rewrite sum_squared_residuals_labelled by (unfold D, P; lengths).
    unfold D, P. now rewrite pointwise_map.
Qed.

Lemma nadd_swap (a x y : num) : nadd (nadd a x) y = nadd (nadd a y) x.
Proof.
  destruct a as [a| | |], x as [x| | |], y as [y| | |]; try reflexivity.
  change (fin (Qred (a + x) + y) = fin (Qred (a + y) + x)).
  apply fin_eq. rewrite !Qred_correct. ring.
Qed.

Lemma fold_nadd_Permutation (l l' : list num) :
  Permutation l l' ->
  forall acc, fold_left nadd l acc = fold_left nadd l' acc.
Proof.
  induction 1 as [|x l l' _ IH|x y l|l l' l'' _ IH1 _ IH2]; intros acc;
    cbn [fold_left].
  - reflexivity.
  - apply IH.
  - now rewrite nadd_swap.
  - now rewrite IH1.
Qed.

Lemma fold_nadd_filter {A : Type} (t : A -> num) (keep : A -> bool)
    (l : list A) (acc : num) :
  canonical acc ->
  (forall x, In x l -> keep x = false -> t x = Fin 0) ->
  fold_left nadd (map t l) acc = fold_left nadd (map t (filter keep l)) acc.
Proof.
  revert acc. induction l as [|a l IH]; intros acc Hc Hz;
    cbn [map filter fold_left]; [reflexivity|].
  destruct (keep a) eqn:Hk; cbn [map fold_left].
  - apply IH; [apply nadd_canonical|]. intros x Hx. apply Hz. now right.
  - rewrite (Hz a (or_introl eq_refl) Hk), (nadd_zero_r acc Hc).
    apply IH; [exact Hc|]. intros x Hx. apply Hz. now right.
Qed.

(** Lines 43 to 51 on two Series of numbers with unique labels: the sum
    runs over the labels the two Series share, each value met with the
    value of the same name; a label one side lacks contributes 0. *)
Lemma sum_squared_residuals_by_name (ls1 ls2 : list label)
    (ds ps : list num) :
  length ls1 = length ds -> length ls2 = length ps ->
  NoDup ls1 -> NoDup ls2 ->
  sum_squared_residuals (labelled ls1 ds) (labelled ls2 ps)
  = Ok (fold_left nadd
          (map (fun l =>
                  squared_residual (value_at (labelled ls1 ds) l)
                    (value_at (labelled ls2 ps) l))
               (filter (fun l => existsb (String.eqb l) ls1) ls2))
          (Fin 0)).
Proof.
  intros Hd Hp N1 N2. destruct (index_equals ls1 ls2) eqn:E.
  - apply index_equals_eq in E. subst ls2.
    rewrite sum_squared_residuals_labelled by assumption.
    rewrite forallb_filter_id.
    + rewrite <- pointwise_map. now rewrite !map_value_at.
    + apply forallb_forall. intros l Hl. now apply mem_label.
  - rewrite sum_squared_residuals_unaligned by assumption. f_equal.
    set (t := fun l => squared_residual _ _).
    rewrite (fold_nadd_filter t
               (fun l => existsb (String.eqb l) ls1
                         && existsb (String.eqb l) ls2)).
    + apply fold_nadd_Permutation, Permutation_map, NoDup_Permutation.
      * apply NoDup_filter, sorted_labels_NoDup, index_union_sorted.
      * now apply NoDup_filter.
      * intros l. rewrite !filter_In, In_index_union, andb_true_iff.
        rewrite !mem_label. tauto.
    + reflexivity.
    + intros l _ Hl. apply andb_false_iff in Hl. unfold t.
      destruct Hl as [Hl|Hl].
      * rewrite (value_at_missing l ls1); [reflexivity|].
        intros Hin. apply mem_label in Hin. congruence.
      * rewrite (value_at_missing l ls2); [apply squared_residual_nan_r|].
        intros Hin. apply mem_label in Hin. congruence.
Qed.

Lemma calculate_ssr_by_name (a1 : num) (idl : label) (idv : cell)
    (idc : label) (id1 id2 : cell) (ls' ls : list label)
    (d e1 e2 : list num) :
  length d = length ls' -> length e1 = length ls -> length e2 = length ls ->
  NoDup ls' -> NoDup ls ->
  let a := np_clip a1 (Fin 0) (Fin 1) in
  let p := mixture a (nsub (Fin 1) a) e1 e2 in
  _calculate_ssr a1 (sample_row idl idv ls' d)
    (endmember_table idc ls id1 id2 e1 e2)
  = Ok (fold_left nadd
          (map (fun l =>
                  squared_residual (value_at (labelled ls' d) l)
                    (value_at (labelled ls p) l))
               (filter (fun l => existsb (String.eqb l) ls') ls))
          (Fin 0)).
Proof.
  intros Hd H1 H2 N' N. cbv zeta.
  rewrite calculate_ssr_predicted by assumption.
  change (iloc_from (sample_row idl idv ls' d) 1) with (labelled ls' d).
  apply sum_squared_residuals_by_name; try assumption; [lia|].
  rewrite length_mixture; lia.
Qed.

(** X13.  The checks of [main] compare the numbers of feature columns, not
    their names, and the objective matches features by name.  When no
    feature of the sample row has the name of an endmember feature, every
    feature meets a missing value and the objective is 0 at every
    fraction: the row gives the optimizer nothing to minimise. *)
Theorem disjoint_feature_names_give_zero
    (a1 : num) (idl : label) (idv : cell) (idc : label) (id1 id2 : cell)
    (ls' ls : list label) (d e1 e2 : list num) :
  length d = length ls' -> length e1 = length ls -> length e2 = length ls ->
  NoDup ls' -> NoDup ls ->
  (forall l, In l ls' -> ~ In l ls) ->
  _calculate_ssr a1 (sample_row idl idv ls' d)
    (endmember_table idc ls id1 id2 e1 e2)
  = Ok (Fin 0).
Proof.
  intros Hd H1 H2 N' N Hdis.
  rewrite calculate_ssr_by_name by assumption. cbv zeta.
  assert (Hnone : filter (fun l => existsb (String.eqb l) ls') ls = []).
  { clear -Hdis. induction ls as [|l ls IH]; [reflexivity|].
    cbn [filter]. destruct (existsb (String.eqb l) ls') eqn:E.
    - apply mem_label in E. exfalso. apply (Hdis l E). now left.
    - apply IH. intros x Hx Hin. apply (Hdis x Hx). now right. }
  now rewrite Hnone.
Qed.

Lemma disjoint_feature_names_give_zero_witness :
  _calculate_ssr (Fin (1 # 3))
    (sample_row "sample"%string (CStr "s1") ["Depth"; "Width"]%string
       [Fin 2; Fin 5])
    (endmember_table "mineral"%string ["depth"; "width"]%string
       (CStr "e1") (CStr "e2") [Fin 1; Fin 4] [Fin 3; Fin 6])
  = Ok (Fin 0).
Proof.
  apply (disjoint_feature_names_give_zero (Fin (1 # 3)) "sample"%string
           (CStr "s1") "mineral"%string (CStr "e1") (CStr "e2")
           ["Depth"; "Width"]%string ["depth"; "width"]%string
           [Fin 2; Fin 5] [Fin 1; Fin 4] [Fin 3; Fin 6]);
    try reflexivity.
  - repeat constructor; cbn [In]; intros H; repeat destruct H as [H|H];
      try discriminate; exact H.
  - repeat constructor; cbn [In]; intros H; repeat destruct H as [H|H];
      try discriminate; exact H.
  - cbn [In]. intros l Hl H.
    repeat destruct Hl as [Hl|Hl]; try exact Hl; subst l;
      repeat destruct H as [H|H]; try discriminate; exact H.
Defined.

Lemma In_lookup (l : label) (v : cell) (s : Series) :
  NoDup (map fst s) -> In (l, v) s -> lookup l s = Some v.
Proof.
  induction s as [|[k w] s IH]; cbn [map fst In lookup]; [intros _ []|].
  intros Hnd Hin. inversion Hnd as [|? ? Hk Hnd']; subst.
  destruct (String.eqb_spec l k) as [->|Hne].
  - destruct Hin as [[= ->]|Hin]; [reflexivity|].
    exfalso. apply Hk. now apply (in_map fst) in Hin.
  - destruct Hin as [[= -> _]|Hin]; [contradiction|]. now apply IH.
Qed.

Lemma lookup_Permutation (l : label) (s s' : Series) :
  NoDup (map fst s) -> Permutation s s' -> lookup l s = lookup l s'.
Proof.
  intros Hnd Hp.
  assert (Hnd' : NoDup (map fst s'))
    by (eapply Permutation_NoDup; [apply Permutation_map, Hp|exact Hnd]).
  destruct (lookup l s) as [v|] eqn:E.
  - symmetry. apply In_lookup; [exact Hnd'|].
    eapply Permutation_in; [exact Hp|]. now apply lookup_In.
  - destruct (lookup l s') as [v|] eqn:E'; [|reflexivity].
    apply lookup_In in E'.
    apply (Permutation_in _ (Permutation_sym Hp)) in E'.
    apply (In_lookup _ _ _ Hnd) in E'. congruence.
Qed.

Lemma labelled_as_map (ls : list label) (xs : list num) :
  labelled ls xs
  = map (fun p : label * num => (fst p, CNum (snd p))) (combine ls xs).
Proof.
  unfold labelled. revert xs.
  induction ls as [|l ls IH]; intros [|x xs]; cbn [map combine fst snd];
    try reflexivity.
  now rewrite IH.
Qed.

Lemma map_fst_combine {A B : Type} (l : list A) (l' : list B) :
  length l = length l' -> map fst (combine l l') = l.
Proof.
  revert l'. induction l as [|a l IH]; intros [|b l']; cbn [length];
    try discriminate; [reflexivity|].
  intros H. cbn [combine map fst]. f_equal. apply IH. lia.
Qed.

(** X14.  The features of the sample row are met with the endmember
    features of the same name, wherever their columns stand: with unique
    feature names, a sample row whose columns are in another order gives
    the same objective (the sum being exact). *)
Theorem column_order_does_not_matter
    (a1 : num) (idl : label) (idv : cell) (idc : label) (id1 id2 : cell)
    (ls ls' : list label) (d d' e1 e2 : list num) :
  length d = length ls -> length d' = length ls' ->
  length e1 = length ls -> length e2 = length ls ->
  NoDup ls ->
  Permutation (combine ls' d') (combine ls d) ->
  _calculate_ssr a1 (sample_row idl idv ls' d')
    (endmember_table idc ls id1 id2 e1 e2)
  = _calculate_ssr a1 (sample_row idl idv ls d)
      (endmember_table idc ls id1 id2 e1 e2).
Proof.
  intros Hd Hd' H1 H2 N Hp.
  assert (Hls : Permutation ls' ls).
  { rewrite <- (map_fst_combine ls' d') by lia.
    rewrite <- (map_fst_combine ls d) by lia.
    now apply Permutation_map. }
  assert (N' : NoDup ls')
    by (eapply Permutation_NoDup; [apply Permutation_sym, Hls|exact N]).
  rewrite !calculate_ssr_by_name by assumption. cbv zeta. f_equal.
  assert (Hf : filter (fun l => existsb (String.eqb l) ls') ls
               = filter (fun l => existsb (String.eqb l) ls) ls).
  { apply filter_ext_in. intros l Hl.
    rewrite (proj2 (mem_label l ls) Hl). apply mem_label.
    eapply Permutation_in; [apply Permutation_sym, Hls|exact Hl]. }
  rewrite Hf. f_equal. apply map_ext. intros l. f_equal.
  unfold value_at. erewrite lookup_Permutation; [reflexivity| |].
  - rewrite labelled_as_map, map_map. cbn [fst].
    change (fun x : label * num => fst x) with (@fst label num).
    rewrite map_fst_combine by lia. exact N'.
  - rewrite !labelled_as_map. now apply Permutation_map.
Qed.

Lemma column_order_does_not_matter_witness :
  _calculate_ssr (Fin (1 # 3))
    (sample_row "sample"%string (CStr "s1") ["width"; "depth"]%string
       [Fin 5; Fin 2])
    (endmember_table "mineral"%string ["depth"; "width"]%string
       (CStr "e1") (CStr "e2") [Fin 1; Fin 4] [Fin 3; Fin 6])
  = _calculate_ssr (Fin (1 # 3))
      (sample_row "sample"%string (CStr "s1") ["depth"; "width"]%string
         [Fin 2; Fin 5])
      (endmember_table "mineral"%string ["depth"; "width"]%string
         (CStr "e1") (CStr "e2") [Fin 1; Fin 4] [Fin 3; Fin 6]).
Proof.
  apply (column_order_does_not_matter (Fin (1 # 3)) "sample"%string
           (CStr "s1") "mineral"%string (CStr "e1") (CStr "e2")
           ["depth"; "width"]%string ["width"; "depth"]%string
           [Fin 2; Fin 5] [Fin 5; Fin 2] [Fin 1; Fin 4] [Fin 3; Fin 6]);
    try reflexivity.
  - repeat constructor; cbn [In]; intros H; repeat destruct H as [H|H];
      try discriminate; exact H.
  - apply perm_swap.
Defined.

(* ------------------------------------------------------------------ *)
(** ** The order of the two endmembers *)

Lemma clamp_mirror (a b : Q) : a + b == 1 -> clamp b == 1 - clamp a.
Proof.
  intros Hab. unfold clamp.
  destruct (Q.max_spec b 0) as [[H1 ->]|[H1 ->]];
    destruct (Q.max_spec a 0) as [[H2 ->]|[H2 ->]];
    repeat match goal with
           | |- context [Qmin ?x ?y] =>
               destruct (Q.min_spec x y) as [[? ->]|[? ->]]
           end; lra.
Qed.

Lemma mixture_mirror (c c' : Q) (e1 e2 : list num) :
  c' == 1 - c ->
  mixture (Fin c') (nsub (Fin 1) (Fin c')) e2 e1
  = mixture (Fin c) (nsub (Fin 1) (Fin c)) e1 e2.
Proof.
  intros Hc. unfold mixture.
  rewrite (pointwise_swap nadd _ _ (fun x y => nadd_comm y x)).
  change (nsub (Fin 1) (Fin c')) with (Fin (Qred (1 - c'))).
  change (nsub (Fin 1) (Fin c)) with (Fin (Qred (1 - c))).
  f_equal; apply map_ext; intros x; apply nmul_Qeq;
    rewrite ?Qred_correct, Hc; ring.
Qed.

(** X15.  The two fractions change places with the two endmember rows: for
    two finite fractions [a1] and [b1] whose sum is exactly 1, the objective
    at [b1] against the table with its two rows exchanged is the objective
    at [a1] against the table as it was, whatever the sample row holds.  The
    statement is about such pairs only: the [1.0 - a1] that the code computes
    in floating point is the partner of [a1] when that subtraction is exact,
    and not otherwise. *)
Theorem swapping_endmembers_mirrors_objective
    (a1 b1 : Q) (data : Series) (idc : label) (id1 id2 : cell)
    (ls : list label) (e1 e2 : list num) :
  length e1 = length ls -> length e2 = length ls ->
  a1 + b1 == 1 ->
  _calculate_ssr (Fin b1) data (endmember_table idc ls id2 id1 e2 e1)
  = _calculate_ssr (Fin a1) data (endmember_table idc ls id1 id2 e1 e2).
Proof.
  intros H1 H2 Hab. rewrite !calculate_ssr_predicted by assumption.
  destruct (np_clip_finite a1) as [c [-> Hc]].
  destruct (np_clip_finite b1) as [c' [-> Hc']].
  rewrite (mixture_mirror c c'); [reflexivity|].
  now rewrite Hc', Hc, (clamp_mirror a1 b1 Hab).
Qed.

Lemma swapping_endmembers_mirrors_objective_witness :
  _calculate_ssr (Fin (3 # 4))
    [("sample", CStr "s4"); ("depth", CNum (Fin 2));
     ("width", CNum (Fin (3 # 2)))]%string
    (endmember_table "mineral"%string ["depth"; "width"]%string
       (CStr "e2") (CStr "e1") [Fin 3; Fin 1] [Fin 1; Fin 2])
  = _calculate_ssr (Fin (1 # 4))
      [("sample", CStr "s4"); ("depth", CNum (Fin 2));
       ("width", CNum (Fin (3 # 2)))]%string
      (endmember_table "mineral"%string ["depth"; "width"]%string
         (CStr "e1") (CStr "e2") [Fin 1; Fin 2] [Fin 3; Fin 1]).
Proof.
  apply (swapping_endmembers_mirrors_objective (1 # 4) (3 # 4)
           [("sample", CStr "s4"); ("depth", CNum (Fin 2));
            ("width", CNum (Fin (3 # 2)))]%string
           "mineral"%string (CStr "e1") (CStr "e2")
           ["depth"; "width"]%string [Fin 1; Fin 2] [Fin 3; Fin 1]);
    reflexivity.
Defined.

(* ------------------------------------------------------------------ *)
(** ** The peak windows of [generate_spectra] *)

Module SpectraFacts.

Import Spectra.

Lemma window_finite (w lo hi : Q) :
  nge (Fin w) (Fin lo) && nle (Fin w) (Fin hi) = true <-> lo <= w <= hi.
Proof.
  unfold nle, nge, ngt. rewrite !negb_involutive, andb_true_iff.
  now rewrite !Qle_bool_iff.
Qed.

Lemma In_dropna (row : num * num) (df : list (num * num)) :
  In row (dropna df) <-> In row df /\ fst row <> NaN /\ snd row <> NaN.
Proof.
  unfold dropna. rewrite filter_In, andb_true_iff.
  destruct row as [[w| | |] [r| | |]]; cbn [fst snd isna negb];
    intuition discriminate.
Qed.

Lemma written_to_peak (f : string) (df : list (num * num)) (k : nat)
    (row : num * num) :
  written_to (peak_files f df) k row
  <-> exists th lo hi,
        nth_error _thresholds k = Some (th, (lo, hi))
        /\ In row df
        /\ nge (fst row) (Fin lo) && nle (fst row) (Fin hi) = true.
Proof.
  unfold written_to, peak_files. rewrite nth_error_map. split.
  - intros [path [tf [Hk Hin]]].
    destruct (nth_error _thresholds k) as [[th [lo hi]]|]; [|discriminate].
    cbn [option_map fst snd] in Hk. injection Hk as _ <-.
    cbn [body] in Hin. apply filter_In in Hin as [Hin Hw].
    now exists th, lo, hi.
  - intros [th [lo [hi [-> [Hin Hw]]]]]. cbn [option_map fst snd].
    eexists. eexists. split; [reflexivity|].
    cbn [body]. apply filter_In. now split.
Qed.

Lemma written_to_window (f : string) (df : list (num * num)) (w r : Q) :
  In (Fin w, Fin r) df ->
  (written_to (peak_files f df) 0 (Fin w, Fin r) <-> 5500 <= w <= 8000)
  /\ (written_to (peak_files f df) 1 (Fin w, Fin r) <-> 4600 <= w <= 5540)
  /\ (written_to (peak_files f df) 2 (Fin w, Fin r) <-> 4310 <= w <= 4788)
  /\ forall k, (3 <= k)%nat -> ~ written_to (peak_files f df) k (Fin w, Fin r).
Proof.
  intros Hin.
  assert (Hk : forall k th lo hi,
            nth_error _thresholds k = Some (th, (lo, hi)) ->
            written_to (peak_files f df) k (Fin w, Fin r) <-> lo <= w <= hi).
  { intros k th lo hi Hn. rewrite written_to_peak, Hn. cbn [fst]. split.
    - intros [th' [lo' [hi' [[= _ <- <-] [_ Hw]]]]].
      now apply window_finite.
    - intros Hw. exists th, lo, hi.
      split; [reflexivity|]. split; [exact Hin|]. now apply window_finite. }
  split; [apply (Hk 0%nat "peak-1"%string); reflexivity|].
  split; [apply (Hk 1%nat "peak-2"%string); reflexivity|].
  split; [apply (Hk 2%nat "peak-3"%string); reflexivity|].
  intros k Hge. rewrite written_to_peak.
  intros [th [lo [hi [Hn _]]]].
  do 3 (destruct k as [|k]; [lia|]). now destruct k.
Qed.

(** X16.  What [generate_spectra] writes for one input.  Only rows whose
    two cells both read as numbers are written, and no missing value is.
    A row of finite numbers goes to the file of each window its wavelength
    lies in (bounds included): the windows overlap on 5500 to 5540 and on
    4600 to 4788, where a row is written twice, and together they take
    exactly the rows from 4310 to 8000. *)
Theorem spectrum_rows_reach_their_windows
    (read_csv : string -> exc (list (cell * cell))) (_filename : string)
    (t : list (cell * cell)) :
  read_csv _filename = Ok t ->
  exists files,
    process_file read_csv _filename = Ok files
    /\ (forall k row,
           written_to files k row ->
           fst row <> NaN /\ snd row <> NaN
           /\ exists c1 c2,
                In (c1, c2) t /\ row = (to_numeric c1, to_numeric c2))
    /\ forall w r : Q,
         In (CNum (Fin w), CNum (Fin r)) t ->
         (written_to files 0 (Fin w, Fin r) <-> 5500 <= w <= 8000)
         /\ (written_to files 1 (Fin w, Fin r) <-> 4600 <= w <= 5540)
         /\ (written_to files 2 (Fin w, Fin r) <-> 4310 <= w <= 4788)
         /\ ((exists k, written_to files k (Fin w, Fin r))
             <-> 4310 <= w <= 8000).
Proof.
  intros Hread. unfold process_file. rewrite Hread. cbn [bind].
  eexists. split; [reflexivity|]. split.
  - intros k row Hw. apply written_to_peak in Hw as [_ [_ [_ [_ [Hin _]]]]].
    apply In_dropna in Hin as [Hin [H1 H2]].
    apply in_map_iff in Hin as [[c1 c2] [<- Hin]].
    cbn [fst snd] in *. repeat split; try assumption. now exists c1, c2.
  - intros w r Hin.
    assert (Hrow : In (Fin w, Fin r)
                     (dropna
                        (map (fun r0 : cell * cell =>
                                (to_numeric (fst r0), to_numeric (snd r0)))
                           t))).
    { apply In_dropna. split; [|split; discriminate].
      apply in_map_iff. now exists (CNum (Fin w), CNum (Fin r)). }
    destruct (written_to_window _filename _ w r Hrow)
      as [H0 [H1 [H2 Hnone]]].
    split; [exact H0|]. split; [exact H1|]. split; [exact H2|]. split.
    + intros [k Hk].
      destruct k as [|[|[|k]]];
        [apply H0 in Hk|apply H1 in Hk|apply H2 in Hk
        |exfalso; apply (Hnone (S (S (S k)))); [lia|exact Hk]]; lra.
    + intros [Hlo Hhi].
      destruct (Qlt_le_dec w 4600) as [Hw|Hw];
        [exists 2%nat; apply H2; lra|].
      destruct (Qlt_le_dec w 5500) as [Hw'|Hw'];
        [exists 1%nat; apply H1; lra|exists 0%nat; apply H0; lra].
Qed.

Lemma spectrum_rows_reach_their_windows_witness :
  exists files,
    process_file
      (fun _ => Ok [(CNum (Fin 5510), CNum (Fin 42));
                    (CStr "bad", CNum (Fin 40))])
      "quartz.csv"%string
    = Ok files
    /\ (forall k row,
           written_to files k row ->
           fst row <> NaN /\ snd row <> NaN
           /\ exists c1 c2,
                In (c1, c2)
                   [(CNum (Fin 5510), CNum (Fin 42));
                    (CStr "bad", CNum (Fin 40))]
                /\ row = (to_numeric c1, to_numeric c2))
    /\ forall w r : Q,
         In (CNum (Fin w), CNum (Fin r))
            [(CNum (Fin 5510), CNum (Fin 42)); (CStr "bad", CNum (Fin 40))] ->
         (written_to files 0 (Fin w, Fin r) <-> 5500 <= w <= 8000)
         /\ (written_to files 1 (Fin w, Fin r) <-> 4600 <= w <= 5540)
         /\ (written_to files 2 (Fin w, Fin r) <-> 4310 <= w <= 4788)
         /\ ((exists k, written_to files k (Fin w, Fin r))
             <-> 4310 <= w <= 8000).
Proof.
  apply (spectrum_rows_reach_their_windows
           (fun _ => Ok [(CNum (Fin 5510), CNum (Fin 42));
                         (CStr "bad", CNum (Fin 40))])
           "quartz.csv"%string).
  reflexivity.
Defined.

(* ------------------------------------------------------------------ *)
(** ** The names [generate_spectra] writes to *)

Lemma length_append (a b : string) :
  String.length (a ++ b) = (String.length a + String.length b)%nat.
Proof. induction a as [|c a IH]; cbn; [reflexivity|now rewrite IH]. Qed.

Lemma append_assoc (a b c : string) :
  ((a ++ b) ++ c = a ++ (b ++ c))%string.
Proof. induction a as [|x a IH]; cbn; [reflexivity|now rewrite IH]. Qed.

Lemma append_inj (a a' b b' : string) :
  String.length a = String.length a' ->
  (a ++ b = a' ++ b')%string -> a = a' /\ b = b'.
Proof.
  revert a'. induction a as [|c a IH]; intros [|c' a']; cbn;
    try discriminate; [now split|].
  intros [= Hlen] [= -> Heq]. destruct (IH a' Hlen Heq) as [-> ->].
  now split.
Qed.

(** The files of one input are named by the text before the first dot of
    its name and by the window. *)
Lemma In_peak_files (f : string) (df : list (num * num)) (path : string)
    (tf : TextFile) :
  In (path, tf) (peak_files f df) ->
  exists th,
    In th ["peak-1"; "peak-2"; "peak-3"]%string
    /\ path = (split_first "." f ++ ("-" ++ th ++ ".txt"))%string.
Proof.
  unfold peak_files. intros Hin.
  apply in_map_iff in Hin as [[th lims] [[= <- _] Hin]]. cbn [fst].
  exists th. split.
  - cbn [_thresholds In] in Hin.
    destruct Hin as [[= <- _]|[[= <- _]|[[= <- _]|[]]]]; cbn [In]; auto.
  - now rewrite append_assoc.
Qed.

Lemma peak_path_inj (s s' th th' : string) :
  In th ["peak-1"; "peak-2"; "peak-3"]%string ->
  In th' ["peak-1"; "peak-2"; "peak-3"]%string ->
  (s ++ ("-" ++ th ++ ".txt") = s' ++ ("-" ++ th' ++ ".txt"))%string ->
  s = s' /\ th = th'.
Proof.
  intros Hth Hth' Heq.
  assert (Hlen : String.length s = String.length s').
  { apply (f_equal String.length) in Heq. rewrite !length_append in Heq.
    cbn [In] in Hth, Hth'.
    destruct Hth as [<-|[<-|[<-|[]]]]; destruct Hth' as [<-|[<-|[<-|[]]]];
      cbn in Heq; lia. }
  destruct (append_inj _ _ _ _ Hlen Heq) as [-> Hrest]. split; [reflexivity|].
  cbn [In] in Hth, Hth'.
  destruct Hth as [<-|[<-|[<-|[]]]]; destruct Hth' as [<-|[<-|[<-|[]]]];
    try reflexivity; discriminate.
Qed.

Lemma peak_paths (f : string) (df : list (num * num)) :
  map fst (peak_files f df)
  = map (fun th => (split_first "." f ++ ("-" ++ th ++ ".txt"))%string)
        ["peak-1"; "peak-2"; "peak-3"]%string.
Proof. unfold peak_files. cbn [_thresholds map fst]. now rewrite !append_assoc. Qed.

Lemma NoDup_peak_paths (f : string) (df : list (num * num)) :
  NoDup (map fst (peak_files f df)).
Proof.
  rewrite peak_paths. cbn [map].
  repeat constructor; cbn [In]; intros H;
    repeat destruct H as [H|H]; try exact H;
    apply peak_path_inj in H as [_ H]; cbn [In]; auto; discriminate.
Qed.

Lemma find_app {A : Type} (p : A -> bool) (l l' : list A) :
  find p (l ++ l')
  = match find p l with Some x => Some x | None => find p l' end.
Proof.
  induction l as [|a l IH]; cbn [app find]; [reflexivity|].
  now destruct (p a).
Qed.

Lemma NoDup_fst_unique {A B : Type} (l : list (A * B)) (a : A) (b b' : B) :
  NoDup (map fst l) -> In (a, b) l -> In (a, b') l -> b = b'.
Proof.
  induction l as [|[k v] l IH]; cbn [map fst In]; [intros _ []|].
  intros Hnd H H'. inversion Hnd as [|? ? Hk Hnd']; subst.
  destruct H as [H|H], H' as [H'|H'].
  - congruence.
  - injection H as -> _. exfalso. apply Hk.
    now apply (in_map fst) in H'.
  - injection H' as -> _. exfalso. apply Hk.
    now apply (in_map fst) in H.
  - now apply IH.
Qed.

Lemma content_app_other (w1 w2 : list (string * TextFile)) (path : string) :
  ~ In path (map fst w2) -> content (w1 ++ w2) path = content w1 path.
Proof.
  intros Hnot. unfold content. rewrite rev_app_distr, find_app.
  destruct (find _ (rev w2)) as [[p tf]|] eqn:E; [|reflexivity].
  apply find_some in E as [Hin Hp]. cbn [fst] in Hp.
  apply String.eqb_eq in Hp. subst p. exfalso. apply Hnot.
  apply in_rev in Hin. now apply (in_map fst) in Hin.
Qed.

Lemma content_app_found (w1 w2 : list (string * TextFile)) (path : string)
    (tf : TextFile) :
  NoDup (map fst w2) -> In (path, tf) w2 ->
  content (w1 ++ w2) path = Some tf.
Proof.
  intros Hnd Hin. unfold content. rewrite rev_app_distr, find_app.
  destruct (find _ (rev w2)) as [[p tf']|] eqn:E.
  - apply find_some in E as [Hin' Hp]. cbn [fst] in Hp.
    apply String.eqb_eq in Hp. subst p. apply in_rev in Hin'.
    cbn [option_map snd]. f_equal.
    symmetry. now apply (NoDup_fst_unique w2 path).
  - pose proof (find_none _ _ E (path, tf) (proj1 (in_rev _ _) Hin)) as Hp.
    cbn [fst] in Hp. now rewrite String.eqb_refl in Hp.
Qed.

Lemma write_all_app read_csv (pre rest : list string) :
  write_all read_csv (pre ++ rest)
  = match write_all read_csv pre with
    | (written, Ok _) =>
        let '(written', r) := write_all read_csv rest in
        (written ++ written', r)
    | (written, Raise e) => (written, Raise e)
    end.
Proof.
  induction pre as [|f pre IH]; cbn [app write_all].
  - now destruct (write_all read_csv rest).
  - destruct (process_file read_csv f) as [files|e]; [|reflexivity].
    rewrite IH.
    destruct (write_all read_csv pre) as [written [[]|e]];
      [|reflexivity].
    destruct (write_all read_csv rest) as [written' r].
    now rewrite app_assoc.
Qed.

(** The files written by a loop come from its inputs. *)
Lemma In_write_all read_csv (names : list string)
    (written : list (string * TextFile)) (r : exc unit) (path : string) :
  write_all read_csv names = (written, r) ->
  In path (map fst written) ->
  exists h th,
    In h names /\ In th ["peak-1"; "peak-2"; "peak-3"]%string
    /\ path = (split_first "." h ++ ("-" ++ th ++ ".txt"))%string.
Proof.
  revert written r. induction names as [|f names IH]; intros written r;
    cbn [write_all].
  - intros [= <- _] [].
  - unfold process_file at 1.
    destruct (read_csv f) as [t|e]; cbn [bind]; [|intros [= <- _] []].
    destruct (write_all read_csv names) as [written' r'] eqn:E.
    set (files := peak_files f _). intros Heq Hin.
    assert (Hw : written = files ++ written') by congruence.
    rewrite Hw, map_app in Hin. unfold files in Hin.
    apply in_app_or in Hin as [Hin|Hin].
    + apply in_map_iff in Hin as [[p tf] [<- Hin]].
      apply In_peak_files in Hin as [th [Hth ->]].
      exists f, th. cbn [In fst]. auto.
    + destruct (IH _ _ eq_refl Hin) as [h [th [Hh [Hth ->]]]].
      exists h, th. cbn [In]. auto.
Qed.

(** X17.  The files of an input are named by the text before the first
    dot of its name.  Inputs that agree up to their first dot write to the
    same three names, and the later one replaces what the earlier one
    wrote: after the run each of the three names holds the table of the
    last such input. *)
Theorem last_input_of_a_stem_wins
    (read_csv : string -> exc (list (cell * cell))) (listdir : list string)
    (pre post : list string) (g : string)
    (files_g written : list (string * TextFile)) :
  filter (fun f => endswith f ".csv" || endswith f ".CSV")
    (_get_files listdir) = pre ++ g :: post ->
  generate_spectra read_csv listdir = (written, Ok tt) ->
  process_file read_csv g = Ok files_g ->
  (forall h, In h post -> split_first "." h <> split_first "." g) ->
  (forall path tf, In (path, tf) files_g -> content written path = Some tf)
  /\ forall f files_f,
       In f pre -> split_first "." f = split_first "." g ->
       process_file read_csv f = Ok files_f ->
       map fst files_f = map fst files_g.
Proof.
  intros Hnames Hrun Hg Hpost. split.
  - intros path tf Hin.
    unfold generate_spectra in Hrun. rewrite Hnames, write_all_app in Hrun.
    destruct (write_all read_csv pre) as [w1 [[]|e]]; [|discriminate].
    cbn [write_all] in Hrun. rewrite Hg in Hrun.
    destruct (write_all read_csv post) as [w2 r] eqn:E2.
    injection Hrun as <- ->.
    assert (Hfiles : exists df, files_g = peak_files g df).
    { unfold process_file in Hg. destruct (read_csv g); [|discriminate].
      cbn [bind] in Hg. injection Hg as <-. eauto. }
    destruct Hfiles as [df ->].
    rewrite app_assoc, content_app_other.
    + apply content_app_found; [apply NoDup_peak_paths|exact Hin].
    + intros Hin2.
      destruct (In_write_all _ _ _ _ _ E2 Hin2) as [h [th [Hh [Hth Hp]]]].
      apply In_peak_files in Hin as [th' [Hth' Hp']]. subst path.
      apply peak_path_inj in Hp as [Heq _]; [|assumption..].
      now apply (Hpost h Hh).
  - intros f files_f _ Hstem Hf.
    unfold process_file in Hf, Hg.
    destruct (read_csv f); [|discriminate].
    destruct (read_csv g); [|discriminate].
    cbn [bind] in Hf, Hg. injection Hf as <-. injection Hg as <-.
    now rewrite !peak_paths, Hstem.
Qed.

Lemma last_input_of_a_stem_wins_witness :
  (forall path tf,
      In (path, tf)
         (peak_files "run.2.CSV"%string [(Fin 4700, Fin 37)]) ->
      content (fst (generate_spectra example_read_csv example_listdir)) path
      = Some tf)
  /\ forall f files_f,
       In f ["run.1.csv"%string] ->
       split_first "." f = split_first "." "run.2.CSV"%string ->
       process_file example_read_csv f = Ok files_f ->
       map fst files_f
       = map fst (peak_files "run.2.CSV"%string [(Fin 4700, Fin 37)]).
Proof.
  apply (last_input_of_a_stem_wins example_read_csv example_listdir
           ["run.1.csv"%string] [] "run.2.CSV"%string).
  - reflexivity.
  - reflexivity.
  - reflexivity.
  - intros h [].
Defined.

(** X18.  [generate_spectra] has no handler: an input that cannot be read
    ends the loop with its exception.  The files of the inputs before it
    stay written, and nothing is written for it or for any input after
    it. *)
Theorem failing_input_stops_generation
    (read_csv : string -> exc (list (cell * cell))) (listdir : list string)
    (pre post : list string) (g : string) (e : Exception) :
  filter (fun f => endswith f ".csv" || endswith f ".CSV")
    (_get_files listdir) = pre ++ g :: post ->
  (forall f, In f pre -> exists t, read_csv f = Ok t) ->
  read_csv g = Raise e ->
  exists written,
    write_all read_csv pre = (written, Ok tt)
    /\ generate_spectra read_csv listdir = (written, Raise e).
Proof.
  intros Hnames Hpre Hg.
  assert (Hok : exists written, write_all read_csv pre = (written, Ok tt)).
  { clear Hnames. induction pre as [|f pre IH]; [now exists []|].
    destruct (Hpre f (or_introl eq_refl)) as [t Ht].
    destruct IH as [w Hw]; [intros h Hh; apply Hpre; now right|].
    cbn [write_all]. unfold process_file. rewrite Ht. cbn [bind].
    rewrite Hw. eauto. }
  destruct Hok as [written Hw]. exists written. split; [exact Hw|].
  unfold generate_spectra. rewrite Hnames, write_all_app, Hw.
  cbn [write_all]. unfold process_file. rewrite Hg. cbn [bind].
  now rewrite app_nil_r.
Qed.

Lemma failing_input_stops_generation_witness :
  exists written,
    write_all failing_read_csv ["run.1.csv"%string] = (written, Ok tt)
    /\ generate_spectra failing_read_csv example_listdir
       = (written, Raise ValueError).
Proof.
  apply (failing_input_stops_generation failing_read_csv example_listdir
           ["run.1.csv"%string] [] "run.2.CSV"%string ValueError).
  - reflexivity.
  - intros f [<-|[]]. eexists. reflexivity.
  - reflexivity.
Defined.

End SpectraFacts.
